(** * The Briefing: the Express server (server.js)

    A shallow embedding of the request handlers of server.js:
      - GET  /rss                 (the RSS projection of the cache)
      - GET  /api/articles        (cache read)
      - POST /api/update-cache    (cache replace)
      - POST /api/generate-news   (model fallback loop, response extraction,
                                   synthetic ids)
    followed by the properties the specification states about them.

    Conventions.
    - A JavaScript string is modelled by [string]: the sequence of its code
      units.  The two fence patterns of the server are pure ASCII.
    - A value produced by JSON.parse is a [JSON]; [undefined] is the [None]
      of [option JSON].
    - Numbers are rationals; every integer the handlers compute (Date.now(),
      array indices, lengths) is far below 2^53, where the arithmetic of
      doubles is exact, and the one product that is not an integer
      (Math.random() * categories.length) is rounded as a double is.
    - An exception is the [Throw] of [completion]. *)

From Stdlib Require Import String Ascii List ZArith QArith Qround Lia Bool Arith.
From Stdlib Require Import DecimalString Lqa.
Import ListNotations.

Set Warnings "-register-all".
Local Open Scope list_scope.
Local Open Scope string_scope.

(* ================================================================== *)
(** ** Values *)

Inductive JSON : Type :=
| JNull
| JBool (b : bool)
| JNumber (x : Q)
| JString (s : string)
| JArray (items : list JSON)
| JObject (props : list (string * JSON)).

(** A JavaScript value that came out of JSON: a [JSON] or [undefined]. *)
Definition JSValue : Type := option JSON.
Definition undefined : JSValue := None.

Inductive JSError : Type :=
| SyntaxError
| TypeError
| FetchFailed.    (* what a rejected [fetch] throws *)

Inductive completion (A : Type) : Type :=
| Normal (a : A)
| Throw (e : JSError).
Arguments Normal {A} a.
Arguments Throw {A} e.

Definition bind {A B} (c : completion A) (k : A -> completion B) : completion B :=
  match c with
  | Normal a => k a
  | Throw e => Throw e
  end.

Notation "x <- c ;; k" := (bind c (fun x => k))
  (at level 61, c at next level, right associativity).

Definition is_array (v : JSON) : bool :=
  match v with JArray _ => true | _ => false end.

(* ================================================================== *)
(** ** Numbers *)

(** A Number is a double.  A finite double is an integer multiple of
    2^-1074 whose significand has 53 bits; the result of an arithmetic
    operation is the exact result rounded to the nearest double, to the one
    with an even significand when two are as near (overflow to Infinity is
    outside the model). *)

(** The integer nearest to [y], the even one of two that are as near. *)
Definition half_even (y : Q) : Z :=
  let f := Qfloor y in
  match Qcompare (y - inject_Z f) (1 # 2) with
  | Lt => f
  | Gt => (f + 1)%Z
  | Eq => if Z.even f then f else (f + 1)%Z
  end.

(** The number of low bits that a value of [X] units of 2^-1074 cannot
    keep. *)
Definition shift (X : Q) : Z := Z.max 0 (Z.log2 (Qfloor X) - 52).

(** [X >= 0] in units of 2^-1074, rounded to 53 bits. *)
Definition round_scaled (X : Q) : Z :=
  (half_even (X / inject_Z (2 ^ shift X)) * 2 ^ shift X)%Z.

Definition smallest : Z := (2 ^ 1074)%Z.

Definition round_double (x : Q) : Q :=
  if Qle_bool 0 x
  then Qred (inject_Z (round_scaled (x * inject_Z smallest)) / inject_Z smallest)
  else Qred (- (inject_Z (round_scaled (- x * inject_Z smallest)) / inject_Z smallest)).

Definition is_double (x : Q) : bool := Qeq_bool (round_double x) x.

(** [x * y] *)
Definition multiply (x y : Q) : Q := round_double (x * y).

(* ================================================================== *)
(** ** Strings *)

Definition nl : string := String "010"%char EmptyString.
Definition dquote : ascii := "034"%char.

(** [starts_with p s]: [p] is a prefix of [s]. *)
Fixpoint starts_with (p s : string) : bool :=
  match p, s with
  | EmptyString, _ => true
  | String _ _, EmptyString => false
  | String a p', String b s' => Ascii.eqb a b && starts_with p' s'
  end.

Fixpoint drop (n : nat) (s : string) : string :=
  match n, s with
  | O, _ => s
  | S _, EmptyString => EmptyString
  | S n', String _ s' => drop n' s'
  end.

(** [cut needle s]: split [s] around the leftmost occurrence of [needle]:
    [Some (before, after)] with [s = before ++ needle ++ after], or [None]
    when [needle] does not occur in [s]. *)
Fixpoint cut (needle s : string) : option (string * string) :=
  if starts_with needle s then Some (EmptyString, drop (String.length needle) s)
  else
    match s with
    | EmptyString => None
    | String c s' =>
        match cut needle s' with
        | Some (before, after) => Some (String c before, after)
        | None => None
        end
    end.

(** [s] holds no backtick. *)
Fixpoint backtick_free (s : string) : bool :=
  match s with
  | EmptyString => true
  | String c rest => negb (Ascii.eqb c "`") && backtick_free rest
  end.

(** The last character of [s] is a newline. *)
Fixpoint ends_with_newline (s : string) : bool :=
  match s with
  | EmptyString => false
  | String c EmptyString => Ascii.eqb c "010"
  | String _ rest => ends_with_newline rest
  end.

(** [needle] occurs somewhere in [s]. *)
Definition occurs (needle s : string) : Prop :=
  exists before after, s = before ++ needle ++ after.

(** No proper suffix of [p] is a prefix of [p]: two occurrences of [p] in a
    text cannot overlap. *)
Fixpoint no_overlap_from (p rest : string) : bool :=
  match rest with
  | EmptyString => true
  | String _ rest' =>
      negb (starts_with rest p) && no_overlap_from p rest'
  end.

Definition unbordered (p : string) : bool :=
  match p with
  | EmptyString => false
  | String _ rest => no_overlap_from p rest
  end.

(** The number of places of [s] at which [needle] starts. *)
Fixpoint occurrences (needle s : string) : nat :=
  match s with
  | EmptyString => 0
  | String _ rest =>
      (if starts_with needle s then 1 else 0) + occurrences needle rest
  end.

Fixpoint has_char (c : ascii) (s : string) : bool :=
  match s with
  | EmptyString => false
  | String d rest => Ascii.eqb c d || has_char c rest
  end.

(** No end of [s] is a beginning of [needle], short of the whole of it: an
    occurrence of [needle] that starts in [s] ends in [s]. *)
Fixpoint ends_clear (needle s : string) : bool :=
  match s with
  | EmptyString => true
  | String _ rest =>
      (negb (starts_with s needle) || starts_with needle s)
      && ends_clear needle rest
  end.

(** [s] does not begin with a character that [needle] has after its first:
    no occurrence of [needle] that starts before [s] ends in [s]. *)
Definition begins_clear (needle s : string) : bool :=
  match needle, s with
  | String _ tail, String c _ => negb (has_char c tail)
  | _, _ => true
  end.

(* ================================================================== *)
(** ** Property access, truthiness, conversion to a string *)

(** Own properties of an object are kept as the sequence of their
    definitions; a later definition of a key replaces an earlier one (an
    object literal, a spread and JSON.parse all behave so), hence the value
    of a key is that of its last definition. *)
Fixpoint lookup (k : string) (props : list (string * JSON)) : JSValue :=
  match props with
  | [] => None
  | (k', v) :: rest =>
      match lookup k rest with
      | Some v' => Some v'
      | None => if (k' =? k)%string then Some v else None
      end
  end.

Definition index_key (n : nat) : string :=
  NilEmpty.string_of_uint (Nat.to_uint n).

(** [v.name], for a [name] that is neither an array index, nor "length", nor
    a member of a built-in prototype (the handlers read candidates, content,
    parts, text, error, message, articles, category, count, headline, summary,
    author, date and id). *)
Definition get_named (v : JSValue) (name : string) : completion JSValue :=
  match v with
  | None | Some JNull => Throw TypeError
  | Some (JObject props) => Normal (lookup name props)
  | Some _ => Normal undefined
  end.

(** [v[n]] *)
Definition get_index (v : JSValue) (n : nat) : completion JSValue :=
  match v with
  | None | Some JNull => Throw TypeError
  | Some (JObject props) => Normal (lookup (index_key n) props)
  | Some (JArray items) => Normal (nth_error items n)
  | Some (JString s) =>
      Normal (match String.get n s with
              | Some c => Some (JString (String c EmptyString))
              | None => None
              end)
  | Some _ => Normal undefined
  end.

(** [v.length] of a value that is not null *)
Definition js_length (v : JSON) : JSValue :=
  match v with
  | JArray items => Some (JNumber (inject_Z (Z.of_nat (List.length items))))
  | JString s => Some (JNumber (inject_Z (Z.of_nat (String.length s))))
  | JObject props => lookup "length" props
  | _ => None
  end.

Definition truthy (v : JSValue) : bool :=
  match v with
  | None | Some JNull => false
  | Some (JBool b) => b
  | Some (JNumber x) => negb (Qeq_bool x 0)
  | Some (JString s) => negb (s =? "")%string
  | Some (JArray _) | Some (JObject _) => true
  end.

(** [v === 'literal'] *)
Definition is_string (v : JSValue) (literal : string) : bool :=
  match v with
  | Some (JString s) => (s =? literal)%string
  | _ => false
  end.

Fixpoint join (sep : string) (parts : list string) : string :=
  match parts with
  | [] => ""
  | [x] => x
  | x :: rest => x ++ sep ++ join sep rest
  end.

(** What the language leaves to the engine. *)
Class Runtime : Type := {
  (** JSON.parse; [None] when it throws a SyntaxError *)
  JSON_parse : string -> option JSON;
  (** Number::toString *)
  Number_toString : Q -> string;
  (** new Date(v).toUTCString() for a primitive [v] *)
  Date_toUTCString : JSValue -> string
}.

Section Conversions.
Context {rt : Runtime}.

(** ToString of a value, as a template literal applies it.  An array is
    joined with commas, null elements giving the empty string.  An object
    that has an own "toString" property (never callable, coming from JSON)
    cannot be converted to a primitive: TypeError; any other object is
    "[object Object]". *)
Fixpoint ToString (v : JSON) : completion string :=
  match v with
  | JNull => Normal "null"
  | JBool true => Normal "true"
  | JBool false => Normal "false"
  | JNumber x => Normal (Number_toString x)
  | JString s => Normal s
  | JArray items =>
      parts <- (fix each (l : list JSON) : completion (list string) :=
                  match l with
                  | [] => Normal []
                  | x :: rest =>
                      s <- match x with JNull => Normal "" | _ => ToString x end ;;
                      ss <- each rest ;;
                      Normal (s :: ss)
                  end) items ;;
      Normal (join "," parts)
  | JObject props =>
      match lookup "toString" props with
      | Some _ => Throw TypeError
      | None => Normal "[object Object]"
      end
  end.

(** [`${v}`] *)
Definition interpolate (v : JSValue) : completion string :=
  match v with
  | None => Normal "undefined"
  | Some j => ToString j
  end.

(** [new Date(v).toUTCString()]: an object or array is first converted to a
    primitive, which is its string. *)
Definition date_utc (v : JSValue) : completion string :=
  match v with
  | Some (JArray _ as j) | Some (JObject _ as j) =>
      s <- ToString j ;; Normal (Date_toUTCString (Some (JString s)))
  | _ => Normal (Date_toUTCString v)
  end.

End Conversions.

(* ================================================================== *)
(** ** The response extractor (generate-news, lines 146-153) *)

Definition fence_json_open : string := "```json" ++ nl.
Definition fence_open : string := "```" ++ nl.
Definition fence_close : string := nl ++ "```".

(** [text.match(/OPEN([\s\S]*?)\n```/)], capture group 1.  The engine tries
    the start positions from the left; at a start position the lazy group
    grows until the closing newline and backticks follow.  If no closing
    follows the leftmost opening, none follows a later opening either, so the
    match is: the leftmost opening, then the nearest closing after it. *)
Definition match_fence (opening text : string) : option string :=
  match cut opening text with
  | None => None
  | Some (_, rest) =>
      match cut fence_close rest with
      | None => None
      | Some (interior, _) => Some interior
      end
  end.

(** [generatedText.match(/```json\n([\s\S]*?)\n```/) ||
     generatedText.match(/```\n([\s\S]*?)\n```/)] *)
Definition jsonMatch (generatedText : string) : option string :=
  match match_fence fence_json_open generatedText with
  | Some m => Some m
  | None => match_fence fence_open generatedText
  end.

(** What the pattern of [opening] matches somewhere in a text: the opening
    and, somewhere after it, a closing. *)
Definition fenced (opening text : string) : Prop :=
  exists before interior after,
    text = before ++ opening ++ interior ++ fence_close ++ after.

Definition jsonText (generatedText : string) : string :=
  match jsonMatch generatedText with
  | Some m => m
  | None => generatedText
  end.

Section Extractor.
Context {rt : Runtime}.

(** [JSON.parse(jsonText)] *)
Definition parse_articles (generatedText : string) : completion JSON :=
  match JSON_parse (jsonText generatedText) with
  | Some v => Normal v
  | None => Throw SyntaxError
  end.

(** The receiver of [articles.map(...)]: only an array has a [map]; on any
    other parsed value the call throws a TypeError. *)
Definition as_array (articles : JSON) : completion (list JSON) :=
  match articles with
  | JArray items => Normal items
  | _ => Throw TypeError
  end.

(** The extractor: the records of the generated text, or the error that the
    fallback loop catches. *)
Definition extract (generatedText : string) : completion (list JSON) :=
  articles <- parse_articles generatedText ;;
  as_array articles.

End Extractor.

(* ================================================================== *)
(** ** Synthetic ids (generate-news, lines 156-159) *)

Fixpoint indexed {A} (f : A -> JSON) (i : nat) (l : list A) : list (string * JSON) :=
  match l with
  | [] => []
  | x :: rest => (index_key i, f x) :: indexed f (S i) rest
  end.

(** The own enumerable properties that [...article] copies. *)
Definition spread (article : JSON) : list (string * JSON) :=
  match article with
  | JObject props => props
  | JArray items => indexed (fun x => x) 0 items
  | JString s =>
      indexed (fun c => JString (String c EmptyString)) 0 (list_ascii_of_string s)
  | JNull | JBool _ | JNumber _ => []
  end.

(** [{ id: now + index, ...article }] *)
Definition with_id (now : Z) (index : nat) (article : JSON) : JSON :=
  JObject (("id", JNumber (inject_Z (now + Z.of_nat index))) :: spread article).

(** The id a client reads off a record. *)
Definition id_of (record : JSON) : JSValue :=
  match record with
  | JObject props => lookup "id" props
  | _ => None
  end.

(* ================================================================== *)
(** ** The server and its surroundings *)

(** The body of the POST request that [fetch] sends for one model. *)
Record Request : Type := mkRequest {
  url : string;
  text : string;               (* contents[0].parts[0].text *)
  temperature : Q;
  maxOutputTokens : Z
}.

Record FetchResponse : Type := mkFetchResponse {
  ok : bool;                   (* response.ok *)
  json : option JSON           (* await response.json(); None: it rejects *)
}.

Inductive LogLine : Type :=
| Trying (model : string)
| ModelFailed (model message : string)
| Success (model : string)
| ModelError (model : string).

Definition is_failure (l : LogLine) : bool :=
  match l with
  | ModelFailed _ _ | ModelError _ => true
  | Trying _ | Success _ => false
  end.

(** The outside world of one run: the environment variable, the upstream
    API (the answer to the [n]-th call of [fetch]; [None]: the call rejects),
    the clock (the [n]-th reading) and the random generator (the [n]-th
    draw). *)
Record Env : Type := mkEnv {
  GEMINI_API_KEY : option string;
  fetch : nat -> Request -> option FetchResponse;
  Date_now : nat -> Z;
  Math_random : nat -> Q
}.

(** The state of the process, with the record of what it did. *)
Record World : Type := mkWorld {
  cachedArticles : JSON;
  fetched : list Request;
  console : list LogLine;
  clock_reads : nat;
  random_reads : nat
}.

(** [let cachedArticles = [];] *)
Definition start : World := mkWorld (JArray []) [] [] 0 0.

Inductive Response : Type :=
| Json (status : nat) (body : JSON)
| Rss (feed : string)
| Uncaught (e : JSError).

(** Computations of a handler: state, and an exception or a value. *)
Definition M (A : Type) : Type := World -> completion A * World.

Definition ret {A} (a : A) : M A := fun w => (Normal a, w).

Definition bindM {A B} (m : M A) (k : A -> M B) : M B :=
  fun w => match m w with
           | (Normal a, w') => k a w'
           | (Throw e, w') => (Throw e, w')
           end.

Definition lift {A} (c : completion A) : M A := fun w => (c, w).

Notation "x <~ m ;; k" := (bindM m (fun x => k))
  (at level 61, m at next level, right associativity).
Notation "m ;;; k" := (bindM m (fun _ => k))
  (at level 61, right associativity).

(** console.log *)
Definition say (l : LogLine) : M unit :=
  fun w => (Normal tt,
            mkWorld (cachedArticles w) (fetched w) (console w ++ [l])
                    (clock_reads w) (random_reads w)).

Section Server.
Context {rt : Runtime}.
Variable env : Env.

(** Date.now() *)
Definition now : M Z :=
  fun w => (Normal (Date_now env (clock_reads w)),
            mkWorld (cachedArticles w) (fetched w) (console w)
                    (S (clock_reads w)) (random_reads w)).

(** Math.random() *)
Definition random : M Q :=
  fun w => (Normal (Math_random env (random_reads w)),
            mkWorld (cachedArticles w) (fetched w) (console w)
                    (clock_reads w) (S (random_reads w))).

(** await fetch(...) *)
Definition do_fetch (r : Request) : M FetchResponse :=
  fun w =>
    let w' := mkWorld (cachedArticles w) (fetched w ++ [r]) (console w)
                      (clock_reads w) (random_reads w) in
    match fetch env (List.length (fetched w)) r with
    | Some response => (Normal response, w')
    | None => (Throw FetchFailed, w')
    end.

(* ------------------------------------------------------------------ *)
(** *** POST /api/generate-news *)

Definition categories : list string :=
  ["politics"; "technology"; "lifestyle"; "business"; "cricket"].

(** The list of the current server (the source file with the cache and the
    feed). *)
Definition models : list string :=
  ["gemini-2.5-flash"; "gemini-2.0-flash"; "gemini-flash-latest";
   "gemini-pro-latest"; "gemini-2.5-pro"; "gemini-pro"].

(** The list of src/server.js, the earlier revision of the same handler. *)
Definition models_1_5 : list string :=
  ["gemini-1.5-flash"; "gemini-1.5-flash-latest"; "gemini-1.5-pro";
   "gemini-1.5-pro-latest"; "gemini-pro"; "gemini-1.0-pro"].

Definition q : string := String dquote EmptyString.

(** The template literal of [prompt], its substitutions already strings. *)
Definition prompt_text (count selectedCategory : string) : string :=
  "Generate " ++ count ++ " satirical news headlines in The Onion style, focused on India. " ++ nl ++
  "Category: " ++ selectedCategory ++ nl ++
  nl ++
  "Each article should be absurd, funny, and exaggerated but grounded in Indian context (cities, culture, work life, etc.)." ++ nl ++
  nl ++
  "Return ONLY a JSON array with this exact structure:" ++ nl ++
  "[" ++ nl ++
  "  {" ++ nl ++
  "    " ++ q ++ "category" ++ q ++ ": " ++ q ++ selectedCategory ++ q ++ "," ++ nl ++
  "    " ++ q ++ "headline" ++ q ++ ": " ++ q ++ "Funny satirical headline" ++ q ++ "," ++ nl ++
  "    " ++ q ++ "summary" ++ q ++ ": " ++ q ++ "One sentence summary of the absurd story" ++ q ++ "," ++ nl ++
  "    " ++ q ++ "author" ++ q ++ ": " ++ q ++ "Indian name" ++ q ++ "," ++ nl ++
  "    " ++ q ++ "date" ++ q ++ ": " ++ q ++ "Oct 19, 2025" ++ q ++ nl ++
  "  }" ++ nl ++
  "]" ++ nl ++
  nl ++
  "Make sure headlines are witty and reference Indian culture, cities, daily life, or current trends. Be creative and absurd!".

Definition build_prompt (count selectedCategory : JSValue) : completion string :=
  c <- interpolate count ;;
  s <- interpolate selectedCategory ;;
  s' <- interpolate selectedCategory ;;
  Normal (prompt_text c s).

(** [categories[Math.floor(r * categories.length)]], for a draw [r] of
    Math.random(); the product is the product of doubles. *)
Definition pick_category (r : Q) : JSValue :=
  let i := Qfloor (multiply r (inject_Z (Z.of_nat (List.length categories)))) in
  if (i <? 0)%Z then undefined
  else match nth_error categories (Z.to_nat i) with
       | Some c => Some (JString c)
       | None => undefined
       end.

(** [category === 'random' ? categories[...] : category] *)
Definition select_category (category : JSValue) : M JSValue :=
  if is_string category "random"
  then r <~ random ;; ret (pick_category r)
  else ret category.

Definition request_for (key prompt model : string) : Request :=
  mkRequest
    ("https://generativelanguage.googleapis.com/v1beta/models/" ++ model
       ++ ":generateContent?key=" ++ key)
    prompt 1 2048.

(** [data.candidates[0].content.parts[0].text], on which [match] is then
    called: anything but a string has no such method. *)
Definition generated_text (data : JSON) : completion string :=
  candidates <- get_named (Some data) "candidates" ;;
  candidate <- get_index candidates 0 ;;
  content <- get_named candidate "content" ;;
  parts <- get_named content "parts" ;;
  part <- get_index parts 0 ;;
  t <- get_named part "text" ;;
  match t with
  | Some (JString s) => Normal s
  | _ => Throw TypeError
  end.

(** [`${data.error?.message}`] *)
Definition error_message (data : JSON) : completion string :=
  e <- get_named (Some data) "error" ;;
  m <- match e with
       | None | Some JNull => Normal undefined
       | Some _ => get_named e "message"
       end ;;
  interpolate m.

(** [articles.map((article, index) => ({ id: Date.now() + index, ...article }))] *)
Fixpoint articlesWithIds (index : nat) (articles : list JSON) : M (list JSON) :=
  match articles with
  | [] => ret []
  | article :: rest =>
      t <~ now ;;
      others <~ articlesWithIds (S index) rest ;;
      ret (with_id t index article :: others)
  end.

(** How one turn of the loop ends. *)
Inductive Turn : Type :=
| Return (body : JSON)        (* return res.json(articlesWithIds) *)
| Continue.                   (* continue *)

(** The body of [try]. *)
Definition try_model (key prompt model : string) : M Turn :=
  say (Trying model) ;;;
  response <~ do_fetch (request_for key prompt model) ;;
  data <~ lift (match json response with
                | Some d => Normal d
                | None => Throw SyntaxError
                end) ;;
  if negb (ok response) then
    message <~ lift (error_message data) ;;
    say (ModelFailed model message) ;;;
    ret Continue
  else
    say (Success model) ;;;
    generatedText <~ lift (generated_text data) ;;
    articles <~ lift (extract generatedText) ;;
    withIds <~ articlesWithIds 0 articles ;;
    ret (Return (JArray withIds)).

(** [try { ... } catch (error) { console.log(...); continue; }] *)
Definition attempt (key prompt model : string) (w : World) : Turn * World :=
  match try_model key prompt model w with
  | (Normal turn, w') => (turn, w')
  | (Throw _, w') => (Continue, snd (say (ModelError model) w'))
  end.

Definition all_failed : JSON :=
  JObject [("error", JString "Failed to generate news with any available model");
           ("details", JString "All Gemini models failed. Please check your API key and quota.")].

(** The answer when every model failed. *)
Definition AggregateFailure : Response := Json 500 all_failed.

(** [for (const model of models) { ... }] and what follows the loop. *)
Fixpoint try_models (key prompt : string) (modelList : list string) (w : World)
  : Response * World :=
  match modelList with
  | [] => (AggregateFailure, w)
  | model :: rest =>
      match attempt key prompt model w with
      | (Return body, w') => (Json 200 body, w')
      | (Continue, w') => try_models key prompt rest w'
      end
  end.

(** The part of the handler that the specification calls the fallback
    client: category, prompt, loop. *)
Definition generate (key : string) (category count : JSValue)
    (modelList : list string) (w : World) : Response * World :=
  match select_category category w with
  | (Throw e, w') => (Uncaught e, w')
  | (Normal selectedCategory, w') =>
      match build_prompt count selectedCategory with
      | Throw e => (Uncaught e, w')
      | Normal prompt => try_models key prompt modelList w'
      end
  end.

Definition not_configured : JSON :=
  JObject [("error", JString "Gemini API key not configured")].

(** The handler, over the list of models it tries. *)
Definition generate_news_with (modelList : list string) (body : JSValue)
    (w : World) : Response * World :=
  match GEMINI_API_KEY env with
  | None | Some "" => (Json 503 not_configured, w)
  | Some key =>
      match (category <- get_named body "category" ;;
             count <- get_named body "count" ;;
             Normal (category, count)) with
      | Throw e => (Uncaught e, w)
      | Normal (category, count) =>
          let count := match count with
                       | None => Some (JNumber 3)
                       | Some _ => count
                       end in
          generate key category count modelList w
      end
  end.

Definition generate_news : JSValue -> World -> Response * World :=
  generate_news_with models.

(** The handler of src/server.js. *)
Definition generate_news_1_5 : JSValue -> World -> Response * World :=
  generate_news_with models_1_5.

End Server.

(* ------------------------------------------------------------------ *)
(** *** The cache: POST /api/update-cache and GET /api/articles *)

Definition set_cache (v : JSON) (w : World) : World :=
  mkWorld v (fetched w) (console w) (clock_reads w) (random_reads w).

(** [const { articles } = req.body; cachedArticles = articles || [];
     res.json({ success: true, count: cachedArticles.length })].
    A count that is [undefined] is left out of the serialized answer. *)
Definition update_cache (body : JSValue) (w : World) : Response * World :=
  match get_named body "articles" with
  | Throw e => (Uncaught e, w)
  | Normal articles =>
      let cached := match articles with
                    | Some a => if truthy articles then a else JArray []
                    | None => JArray []
                    end in
      let count := match js_length cached with
                   | Some n => [("count", n)]
                   | None => []
                   end in
      (Json 200 (JObject (("success", JBool true) :: count)),
       set_cache cached w)
  end.

(** [res.json(cachedArticles)] *)
Definition get_articles (w : World) : Response * World :=
  (Json 200 (cachedArticles w), w).

(** The number of a count, as a client reads it off the answer. *)
Definition count_of (r : Response) : JSValue :=
  match r with
  | Json _ (JObject props) => lookup "count" props
  | _ => None
  end.

(* ------------------------------------------------------------------ *)
(** *** GET /rss *)

Section Feed.
Context {rt : Runtime}.
Variable env : Env.

(** The template literal of one item. *)
Definition item_text (headline summary author category pubDate baseUrl id : string)
  : string :=
  nl ++
  "    <item>" ++ nl ++
  "      <title><![CDATA[" ++ headline ++ "]]></title>" ++ nl ++
  "      <description><![CDATA[" ++ summary ++ "]]></description>" ++ nl ++
  "      <author>" ++ author ++ "</author>" ++ nl ++
  "      <category>" ++ category ++ "</category>" ++ nl ++
  "      <pubDate>" ++ pubDate ++ "</pubDate>" ++ nl ++
  "      <guid isPermaLink=" ++ q ++ "false" ++ q ++ ">" ++ baseUrl ++ "/#article-" ++ id ++ "</guid>" ++ nl ++
  "    </item>".

(** [`${article.name}`] *)
Definition field (article : JSON) (name : string) : completion string :=
  v <- get_named (Some article) name ;; interpolate v.

(** The callback of [map]. *)
Definition render_item (baseUrl : string) (article : JSON) : completion string :=
  headline <- field article "headline" ;;
  summary <- field article "summary" ;;
  author <- field article "author" ;;
  category <- field article "category" ;;
  pubDate <- (d <- get_named (Some article) "date" ;; date_utc d) ;;
  id <- field article "id" ;;
  Normal (item_text headline summary author category pubDate baseUrl id).

Fixpoint map_items (baseUrl : string) (articles : list JSON)
  : completion (list string) :=
  match articles with
  | [] => Normal []
  | article :: rest =>
      item <- render_item baseUrl article ;;
      items <- map_items baseUrl rest ;;
      Normal (item :: items)
  end.

(** [cachedArticles.slice(0, 20).map(article => ...)]: the items before they
    are joined.  Only an array has both [slice] and, on the result, [map]. *)
Definition rss_items (baseUrl : string) (cached : JSON) : completion (list string) :=
  match cached with
  | JArray articles => map_items baseUrl (firstn 20 articles)
  | _ => Throw TypeError
  end.

(** The template literal of [rssFeed]. *)
Definition feed_text (baseUrl lastBuildDate rssItems : string) : string :=
  "<?xml version=" ++ q ++ "1.0" ++ q ++ " encoding=" ++ q ++ "UTF-8" ++ q ++ "?>" ++ nl ++
  "<rss version=" ++ q ++ "2.0" ++ q ++ " xmlns:atom=" ++ q ++ "http://www.w3.org/2005/Atom" ++ q ++ ">" ++ nl ++
  "  <channel>" ++ nl ++
  "    <title>The Briefing - India's Finest Satirical News</title>" ++ nl ++
  "    <link>" ++ baseUrl ++ "</link>" ++ nl ++
  "    <description>Absurd, satirical news about India that will make you laugh and question reality</description>" ++ nl ++
  "    <language>en-in</language>" ++ nl ++
  "    <lastBuildDate>" ++ lastBuildDate ++ "</lastBuildDate>" ++ nl ++
  "    <atom:link href=" ++ q ++ baseUrl ++ "/rss" ++ q ++ " rel=" ++ q ++ "self" ++ q ++ " type=" ++ q ++ "application/rss+xml" ++ q ++ "/>" ++ nl ++
  "    " ++ rssItems ++ nl ++
  "  </channel>" ++ nl ++
  "</rss>".

(** The handler; [baseUrl] is [`${req.protocol}://${req.get('host')}`]. *)
Definition rss (baseUrl : string) (w : World) : Response * World :=
  match rss_items baseUrl (cachedArticles w) with
  | Throw e => (Uncaught e, w)
  | Normal items =>
      match now env w with
      | (Normal t, w') =>
          (Rss (feed_text baseUrl
                  (Date_toUTCString (Some (JNumber (inject_Z t))))
                  (join nl items)), w')
      | (Throw e, w') => (Uncaught e, w')
      end
  end.

End Feed.

(* ------------------------------------------------------------------ *)
(** *** POST /api/generate-news, first revision (one model, no fallback) *)

Section SingleAttempt.
Context {rt : Runtime}.
Variable env : Env.

(** How the engine words the message of an error that it raises itself
    (a rejected [fetch], a SyntaxError, a TypeError) while it processes the
    answer of the upstream API. *)
Variable engine_wording : option FetchResponse -> string.

Definition request_v1 (key prompt : string) : Request :=
  mkRequest
    ("https://generativelanguage.googleapis.com/v1/models/gemini-1.5-flash:generateContent?key="
       ++ key)
    prompt 1 2048.

(** [res.status(500).json({ error: 'Failed to generate news',
                            details: error.message })] *)
Definition failed_with (details : string) : Response :=
  Json 500 (JObject [("error", JString "Failed to generate news");
                     ("details", JString details)]).

(** The message of [new Error(data.error?.message || 'Gemini API error')] *)
Definition error_reason (data : JSON) : completion string :=
  e <- get_named (Some data) "error" ;;
  m <- match e with
       | None | Some JNull => Normal undefined
       | Some _ => get_named e "message"
       end ;;
  match m with
  | Some reason => if truthy m then ToString reason else Normal "Gemini API error"
  | None => Normal "Gemini API error"
  end.

(** [try { ... } catch (error) { ... }] with its single call.  What
    console.error writes goes to the error stream and is not part of
    [console]. *)
Definition single_attempt (key prompt : string) (w : World) : Response * World :=
  match do_fetch env (request_v1 key prompt) w with
  | (Throw _, w1) => (failed_with (engine_wording None), w1)
  | (Normal response, w1) =>
      let wording := engine_wording (Some response) in
      match json response with
      | None => (failed_with wording, w1)
      | Some data =>
          if negb (ok response) then
            match error_reason data with
            | Normal reason => (failed_with reason, w1)
            | Throw _ => (failed_with wording, w1)
            end
          else
            match (generatedText <- generated_text data ;; extract generatedText) with
            | Throw _ => (failed_with wording, w1)
            | Normal articles =>
                match articlesWithIds env 0 articles w1 with
                | (Normal withIds, w2) => (Json 200 (JArray withIds), w2)
                | (Throw _, w2) => (failed_with wording, w2)
                end
            end
      end
  end.

Definition generate_news_v1 (body : JSValue) (w : World) : Response * World :=
  match GEMINI_API_KEY env with
  | None | Some "" => (Json 503 not_configured, w)
  | Some key =>
      match (category <- get_named body "category" ;;
             count <- get_named body "count" ;;
             Normal (category, count)) with
      | Throw e => (Uncaught e, w)
      | Normal (category, count) =>
          let count := match count with
                       | None => Some (JNumber 3)
                       | Some _ => count
                       end in
          match select_category env category w with
          | (Throw e, w') => (Uncaught e, w')
          | (Normal selectedCategory, w') =>
              match build_prompt count selectedCategory with
              | Throw e => (Uncaught e, w')
              | Normal prompt => single_attempt key prompt w'
              end
          end
      end
  end.

End SingleAttempt.

(* ------------------------------------------------------------------ *)
(** *** The routes *)

(** The requests that the routes registered with [app.get] and [app.post]
    answer from this file; [baseUrl] stands for the protocol and host of a
    request for the feed. *)
Inductive HttpRequest : Type :=
| GetRss (baseUrl : string)
| GetArticles
| PostUpdateCache (body : JSValue)
| PostGenerateNews (body : JSValue).

Section Routes.
Context {rt : Runtime}.
Variable env : Env.

Definition serve (request : HttpRequest) (w : World) : Response * World :=
  match request with
  | GetRss baseUrl => rss env baseUrl w
  | GetArticles => get_articles w
  | PostUpdateCache body => update_cache body w
  | PostGenerateNews body => generate_news env body w
  end.

(** The state after a sequence of requests, each handled to its end before
    the next. *)
Fixpoint serve_all (requests : list HttpRequest) (w : World) : World :=
  match requests with
  | [] => w
  | request :: rest => serve_all rest (snd (serve request w))
  end.

End Routes.

Definition is_update (request : HttpRequest) : bool :=
  match request with
  | PostUpdateCache _ => true
  | _ => false
  end.

(* ================================================================== *)
(** ** A reference engine

    The properties below hold for every [Runtime].  To run the handlers on
    concrete requests, here is one: a parser of the JSON grammar (ECMA-404),
    as JSON.parse accepts it. *)

Module Engine.

Local Open Scope nat_scope.

Definition is_ws (c : ascii) : bool :=
  let n := nat_of_ascii c in
  (n =? 32)%nat || (n =? 9)%nat || (n =? 10)%nat || (n =? 13)%nat.

Fixpoint skip_ws (s : string) : string :=
  match s with
  | String c rest => if is_ws c then skip_ws rest else s
  | EmptyString => s
  end.

Definition digit_of (c : ascii) : option Z :=
  let n := nat_of_ascii c in
  if (48 <=? n)%nat && (n <=? 57)%nat then Some (Z.of_nat (n - 48)) else None.

Definition hex_of (c : ascii) : option nat :=
  let n := nat_of_ascii c in
  if (48 <=? n)%nat && (n <=? 57)%nat then Some (n - 48)
  else if (65 <=? n)%nat && (n <=? 70)%nat then Some (n - 55)
  else if (97 <=? n)%nat && (n <=? 102)%nat then Some (n - 87)
  else None.

(** The longest run of digits at the head of [s]: its value after [acc], how
    many digits it has, and what follows. *)
Fixpoint digits (acc : Z) (n : nat) (s : string) : Z * nat * string :=
  match s with
  | String c rest =>
      match digit_of c with
      | Some d => digits (10 * acc + d) (S n) rest
      | None => (acc, n, s)
      end
  | EmptyString => (acc, n, s)
  end.

(** int: a single 0, or a digit from 1 to 9 followed by digits *)
Definition integer_part (s : string) : option (Z * string) :=
  match s with
  | String "0" rest => Some (0%Z, rest)
  | _ => match digits 0 0 s with
         | (_, O, _) => None
         | (v, S _, rest) => Some (v, rest)
         end
  end.

(** frac: a point and at least one digit; gives the digits read as an
    integer and their number *)
Definition fraction_part (s : string) : option (Z * nat * string) :=
  match s with
  | String "." rest =>
      match digits 0 0 rest with
      | (_, O, _) => None
      | (v, S n, rest') => Some (v, S n, rest')
      end
  | _ => Some (0%Z, O, s)
  end.

(** exp: e or E, an optional sign, at least one digit *)
Definition exponent_part (s : string) : option (Z * string) :=
  match s with
  | String c rest =>
      if (Ascii.eqb c "e" || Ascii.eqb c "E")%bool then
        let '(sign, rest1) :=
          match rest with
          | String "+" r => (1%Z, r)
          | String "-" r => ((-1)%Z, r)
          | _ => (1%Z, rest)
          end in
        match digits 0 0 rest1 with
        | (_, O, _) => None
        | (v, S _, rest2) => Some ((sign * v)%Z, rest2)
        end
      else Some (0%Z, s)
  | EmptyString => Some (0%Z, s)
  end.

Definition pow10 (e : Z) : Q :=
  if (0 <=? e)%Z then inject_Z (10 ^ e)
  else Qmake 1%Z (Z.to_pos (10 ^ (- e))).

(** A number of the grammar; its value is the double nearest to the decimal
    that is written. *)
Definition number (s : string) : option (Q * string) :=
  let '(sign, s1) := match s with
                     | String "-" r => ((-1)%Z, r)
                     | _ => (1%Z, s)
                     end in
  match integer_part s1 with
  | None => None
  | Some (i, s2) =>
      match fraction_part s2 with
      | None => None
      | Some (f, k, s3) =>
          match exponent_part s3 with
          | None => None
          | Some (e, s4) =>
              let mantissa := (sign * (i * 10 ^ Z.of_nat k + f))%Z in
              Some (round_double (inject_Z mantissa * pow10 (e - Z.of_nat k))%Q, s4)
          end
      end
  end.

(** The code unit of [\uXXXX].  A [string] holds code units below 256; an
    escape above that has no value here. *)
Definition unicode_escape (s : string) : option (ascii * string) :=
  match s with
  | String a (String b (String c (String d rest))) =>
      match hex_of a, hex_of b, hex_of c, hex_of d with
      | Some 0%nat, Some 0%nat, Some h, Some l =>
          Some (ascii_of_nat (16 * h + l), rest)
      | _, _, _, _ => None
      end
  | _ => None
  end.

(** The characters of a string after its opening quote, up to the closing
    one.  A control character must be escaped. *)
Fixpoint characters (fuel : nat) (s : string) : option (string * string) :=
  match fuel with
  | O => None
  | S fuel' =>
      match s with
      | EmptyString => None
      | String c rest =>
          if Ascii.eqb c dquote then Some (EmptyString, rest)
          else if (nat_of_ascii c <? 32)%nat then None
          else if Ascii.eqb c "\" then
            match rest with
            | String e rest' =>
                let plain (x : ascii) :=
                  match characters fuel' rest' with
                  | Some (t, r) => Some (String x t, r)
                  | None => None
                  end in
                if Ascii.eqb e dquote then plain dquote
                else if Ascii.eqb e "\" then plain "\"%char
                else if Ascii.eqb e "/" then plain "/"%char
                else if Ascii.eqb e "b" then plain "008"%char
                else if Ascii.eqb e "f" then plain "012"%char
                else if Ascii.eqb e "n" then plain "010"%char
                else if Ascii.eqb e "r" then plain "013"%char
                else if Ascii.eqb e "t" then plain "009"%char
                else if Ascii.eqb e "u" then
                  match unicode_escape rest' with
                  | Some (x, rest'') =>
                      match characters fuel' rest'' with
                      | Some (t, r) => Some (String x t, r)
                      | None => None
                      end
                  | None => None
                  end
                else None
            | EmptyString => None
            end
          else
            match characters fuel' rest with
            | Some (t, r) => Some (String c t, r)
            | None => None
            end
      end
  end.

Definition string_literal (s : string) : option (string * string) :=
  characters (String.length s) s.

(** A value at the head of [s] (white space already skipped), and what
    follows it.  [elements] reads an array after its bracket or a comma,
    [members] an object. *)
Fixpoint value (fuel : nat) (s : string) {struct fuel} : option (JSON * string) :=
  match fuel with
  | O => None
  | S fuel' =>
      match s with
      | EmptyString => None
      | String c rest =>
          if Ascii.eqb c "[" then
            match skip_ws rest with
            | String "]" rest' => Some (JArray [], rest')
            | rest' => elements fuel' rest' []
            end
          else if Ascii.eqb c "{" then
            match skip_ws rest with
            | String "}" rest' => Some (JObject [], rest')
            | rest' => members fuel' rest' []
            end
          else if Ascii.eqb c dquote then
            match string_literal rest with
            | Some (t, rest') => Some (JString t, rest')
            | None => None
            end
          else if starts_with "true" s then Some (JBool true, drop 4 s)
          else if starts_with "false" s then Some (JBool false, drop 5 s)
          else if starts_with "null" s then Some (JNull, drop 4 s)
          else
            match number s with
            | Some (x, rest') => Some (JNumber x, rest')
            | None => None
            end
      end
  end
with elements (fuel : nat) (s : string) (acc : list JSON) {struct fuel}
  : option (JSON * string) :=
  match fuel with
  | O => None
  | S fuel' =>
      match value fuel' s with
      | None => None
      | Some (v, rest) =>
          match skip_ws rest with
          | String "," rest' => elements fuel' (skip_ws rest') (v :: acc)
          | String "]" rest' => Some (JArray (rev (v :: acc)), rest')
          | _ => None
          end
      end
  end
with members (fuel : nat) (s : string) (acc : list (string * JSON)) {struct fuel}
  : option (JSON * string) :=
  match fuel with
  | O => None
  | S fuel' =>
      match s with
      | String c rest =>
          if Ascii.eqb c dquote then
            match string_literal rest with
            | None => None
            | Some (k, rest1) =>
                match skip_ws rest1 with
                | String ":" rest2 =>
                    match value fuel' (skip_ws rest2) with
                    | None => None
                    | Some (v, rest3) =>
                        match skip_ws rest3 with
                        | String "," rest4 =>
                            members fuel' (skip_ws rest4) ((k, v) :: acc)
                        | String "}" rest4 =>
                            Some (JObject (rev ((k, v) :: acc)), rest4)
                        | _ => None
                        end
                    end
                | _ => None
                end
            end
          else None
      | EmptyString => None
      end
  end.

(** JSON.parse: one value, white space around it, nothing else. *)
Definition parse (s : string) : option JSON :=
  match value (S (String.length s)) (skip_ws s) with
  | Some (v, rest) =>
      match skip_ws rest with
      | EmptyString => Some v
      | String _ _ => None
      end
  | None => None
  end.

End Engine.

Module Clock.

Local Open Scope Z_scope.

Definition two_digits (n : Z) : string :=
  (if n <? 10 then "0" else "") ++ NilEmpty.string_of_int (Z.to_int n).

Definition four_digits (n : Z) : string :=
  let a := Z.abs n in
  (if n <? 0 then "-" else "") ++
  (if a <? 10 then "000" else if a <? 100 then "00" else if a <? 1000 then "0" else "")
  ++ NilEmpty.string_of_int (Z.to_int a).

Definition day_names : list string :=
  ["Sun"; "Mon"; "Tue"; "Wed"; "Thu"; "Fri"; "Sat"].

Definition month_names : list string :=
  ["Jan"; "Feb"; "Mar"; "Apr"; "May"; "Jun";
   "Jul"; "Aug"; "Sep"; "Oct"; "Nov"; "Dec"].

(** Year, month (1 to 12) and day of the month of a day counted from
    1 January 1970, in the proleptic Gregorian calendar. *)
Definition civil (days : Z) : Z * Z * Z :=
  let z := days + 719468 in
  let era := z / 146097 in
  let doe := z - era * 146097 in
  let yoe := (doe - doe / 1460 + doe / 36524 - doe / 146096) / 365 in
  let doy := doe - (365 * yoe + yoe / 4 - yoe / 100) in
  let mp := (5 * doy + 2) / 153 in
  let d := doy - (153 * mp + 2) / 5 + 1 in
  let m := if mp <? 10 then mp + 3 else mp - 9 in
  let y := yoe + era * 400 + (if m <=? 2 then 1 else 0) in
  (y, m, d).

(** Date.prototype.toUTCString of a time value in milliseconds. *)
Definition utc_string (t : Z) : string :=
  if 8640000000000000 <? Z.abs t then "Invalid Date"
  else
    let days := t / 86400000 in
    let ms := t mod 86400000 in
    let '(y, m, d) := civil days in
    nth (Z.to_nat ((days + 4) mod 7)) day_names "" ++ ", " ++
    two_digits d ++ " " ++ nth (Z.to_nat (m - 1)) month_names "" ++ " " ++
    four_digits y ++ " " ++
    two_digits (ms / 3600000) ++ ":" ++ two_digits (ms / 60000 mod 60) ++ ":" ++
    two_digits (ms / 1000 mod 60) ++ " GMT".

End Clock.

(** Integers print in decimal (so does Number::toString below 10^21); the
    examples print no other number.  A number is a date by its time value;
    of the date strings, whose parsing the language leaves to the engine but
    for one format, this engine reads none. *)
Definition engine_number_string (x : Q) : string :=
  NilEmpty.string_of_int (Z.to_int (Qfloor x)).

Definition engine_date (v : JSValue) : string :=
  match v with
  | Some (JNumber x) => Clock.utc_string (Z.quot (Qnum x) (Zpos (Qden x)))
  | Some (JBool true) => Clock.utc_string 1
  | Some (JBool false) | Some JNull => Clock.utc_string 0
  | Some (JString _) | Some (JArray _) | Some (JObject _) | None => "Invalid Date"
  end.

#[export] Instance engine : Runtime := {|
  JSON_parse := Engine.parse;
  Number_toString := engine_number_string;
  Date_toUTCString := engine_date
|}.

(** JSON texts are written below with an apostrophe for each double
    quote. *)
Definition quoted (s : string) : string :=
  string_of_list_ascii
    (map (fun c => if Ascii.eqb c "'" then dquote else c) (list_ascii_of_string s)).

(* ================================================================== *)
(** ** Vocabulary of the specification *)

Section Vocabulary.
Context {rt : Runtime}.

(** What an answer of the upstream API is worth: the records it carries,
    or [None] when the attempt fails: the call rejects or its body cannot be
    read (transport), the status is not a success, or no array of records
    can be extracted from the generated text. *)
Definition articles_of_response (r : option FetchResponse) : option (list JSON) :=
  match r with
  | Some (mkFetchResponse true (Some data)) =>
      match (t <- generated_text data ;; extract t) with
      | Normal articles => Some articles
      | Throw _ => None
      end
  | _ => None
  end.

End Vocabulary.

(** The models that were attempted, in the order of the attempts. *)
Fixpoint attempted (log : list LogLine) : list string :=
  match log with
  | [] => []
  | Trying model :: rest => model :: attempted rest
  | _ :: rest => attempted rest
  end.

(** The models named by the failure lines, in the order of the lines. *)
Fixpoint failed_models (log : list LogLine) : list string :=
  match log with
  | [] => []
  | ModelFailed model _ :: rest | ModelError model :: rest =>
      model :: failed_models rest
  | _ :: rest => failed_models rest
  end.

(** The number of failed attempts on record. *)
Definition failures (log : list LogLine) : nat :=
  List.length (filter is_failure log).

(** What a turn of the loop leaves untouched or adds to the record. *)
Record turn_of (model : string) (r : Request) (failed : nat) (reads : nat)
    (w w' : World) : Prop := {
  turn_cache : cachedArticles w' = cachedArticles w;
  turn_fetched : fetched w' = (fetched w ++ [r])%list;
  turn_attempted : attempted (console w') = (attempted (console w) ++ [model])%list;
  turn_failures : failures (console w') = (failures (console w) + failed)%nat;
  turn_clock : clock_reads w' = (clock_reads w + reads)%nat;
  turn_random : random_reads w' = random_reads w
}.

(** The record brings an id of its own. *)
Definition has_own_id (article : JSON) : bool :=
  match lookup "id" (spread article) with
  | Some _ => true
  | None => false
  end.

(** A value that is absent or primitive. *)
Definition plain (v : JSValue) : bool :=
  match v with
  | Some (JArray _) | Some (JObject _) => false
  | _ => true
  end.


(** A request that, if it replaces the cache, does so with an array or
    with nothing. *)
Definition sends_array (request : HttpRequest) : bool :=
  match request with
  | PostUpdateCache body =>
      match get_named body "articles" with
      | Normal (Some j) => is_array j || negb (truthy (Some j))
      | _ => true
      end
  | _ => true
  end.

(** A request to update-cache that the handler accepts: one whose body can
    be read for its articles.  On a missing body, or a null, the handler
    throws at the read. *)
Definition accepted_update (request : HttpRequest) : bool :=
  match request with
  | PostUpdateCache body =>
      match get_named body "articles" with
      | Normal _ => true
      | Throw _ => false
      end
  | _ => false
  end.

(** The environment variable holds no usable key. *)
Definition key_missing (env : Env) : Prop :=
  GEMINI_API_KEY env = None \/ GEMINI_API_KEY env = Some "".


(** The opening tag of an item element of the feed. *)
Definition item_tag : string := "<item>".



(* ================================================================== *)
(** ** Sample runs *)

Module Sample.

(** The body of a successful answer of the upstream API carrying [text]. *)
Definition answer_with (generated : string) : JSON :=
  JObject [("candidates",
            JArray [JObject [("content",
                     JObject [("parts",
                               JArray [JObject [("text", JString generated)]])])]])].

Definition quota_exceeded : JSON :=
  JObject [("error", JObject [("message", JString "quota exceeded")])].

Definition two_headlines : string :=
  quoted "[{'headline': 'Bengaluru traffic declared a heritage site'}, {'headline': 'Chai break extended to nine hours'}]".

Definition two_records : list JSON :=
  [JObject [("headline", JString "Bengaluru traffic declared a heritage site")];
   JObject [("headline", JString "Chai break extended to nine hours")]].

Definition tick (n : nat) : Z := (1760832000000 + Z.of_nat n)%Z.

(** Every model fails, each in its own way: the call rejects, the status is
    an error, the body cannot be read, the answer has no candidates, the
    text is no JSON, the JSON is an object. *)
Definition all_down : Env :=
  mkEnv (Some "secret")
        (fun n _ =>
           match n with
           | 0%nat => None
           | 1%nat => Some (mkFetchResponse false (Some quota_exceeded))
           | 2%nat => Some (mkFetchResponse true None)
           | 3%nat => Some (mkFetchResponse true (Some (JObject [])))
           | 4%nat => Some (mkFetchResponse true (Some (answer_with "Sorry, no news today.")))
           | _ => Some (mkFetchResponse true
                          (Some (answer_with (quoted "{'headline': 'One story only'}"))))
           end)
        tick (fun _ => 0).

(** The first two models fail, the third answers with a fenced array. *)
Definition third_answers : Env :=
  mkEnv (Some "secret")
        (fun n _ =>
           match n with
           | 0%nat => None
           | 1%nat => Some (mkFetchResponse false (Some quota_exceeded))
           | _ => Some (mkFetchResponse true
                          (Some (answer_with
                                   ("Here you go:" ++ nl ++ fence_json_open
                                    ++ two_headlines ++ fence_close))))
           end)
        tick (fun _ => 0).

(** The first model answers with records that carry the same id. *)
Definition numbered_by_model : Env :=
  mkEnv (Some "secret")
        (fun _ _ =>
           Some (mkFetchResponse true
                   (Some (answer_with
                            (quoted "[{'id': 7, 'headline': 'a'}, {'id': 7, 'headline': 'b'}]")))))
        tick (fun _ => 0).

(** A clock that is set back by one millisecond between two readings. *)
Definition clock_set_back : Env :=
  mkEnv (Some "secret") (fun _ _ => None)
        (fun n => match n with 0%nat => 1000%Z | _ => 999%Z end) (fun _ => 0).

Definition politics : JSValue :=
  Some (JObject [("category", JString "politics")]).

Definition sample_prompt : string := prompt_text "3" "politics".

Definition headline (n : nat) : JSON :=
  JObject [("id", JNumber (inject_Z (Z.of_nat n)));
           ("headline", JString ("Story " ++ index_key n));
           ("category", JString "cricket")].




Definition five : list JSON := map headline (seq 0 5).

End Sample.

Module Cases.
Import Sample.

(** Two plain blocks in one text. *)
Definition two_blocks : string :=
  ("First:" ++ nl) ++ fence_open ++ "[1]" ++ fence_close
  ++ (nl ++ "Second:" ++ nl ++ fence_open ++ "[2]" ++ fence_close).

Definition wording (r : option FetchResponse) : string :=
  match r with
  | None => "fetch failed"
  | Some _ => "Unexpected token in JSON"
  end.



Definition only_category : list (string * JSON) :=
  [("category", JString "politics")].


Definition after_numbering : World :=
  snd (articlesWithIds third_answers 0 two_records start).

Definition full_record : list (string * JSON) :=
  [("id", JNumber 7);
   ("category", JString "cricket");
   ("headline", JString "Umpire <b>retires</b> ]]> to Goa & beyond");
   ("summary", JString "He took the bails with him.");
   ("author", JString "R. Iyer");
   ("date", JString "Oct 19, 2025")].

(** A cache that holds a null. *)
Definition with_null : World := mkWorld (JArray [JNull]) [] [] 0 0.

Definition articles_of (batch : list JSON) : JSValue :=
  Some (JObject [("articles", JArray batch)]).

Definition busy_morning : list HttpRequest :=
  [PostUpdateCache (articles_of five); GetRss "http://localhost:3000"].

Definition busy_afternoon : list HttpRequest :=
  [GetArticles; PostGenerateNews politics; GetRss "http://localhost:3000"].

(** An afternoon with two requests to update-cache that are rejected, one
    without a body and one with a null. *)
Definition rejected_afternoon : list HttpRequest :=
  [GetArticles; PostUpdateCache undefined; PostGenerateNews politics;
   PostUpdateCache (Some JNull); GetRss "http://localhost:3000"].

End Cases.

(* ================================================================== *)
(** * Properties *)

(** ** Strings and the two patterns *)

Section StringFacts.

Lemma append_empty_r (s : string) : s ++ "" = s.
Proof. induction s as [|c s IH]; simpl; [reflexivity | now rewrite IH]. Qed.

Lemma append_assoc (a b c : string) : (a ++ b) ++ c = a ++ b ++ c.
Proof. induction a as [|x a IH]; simpl; [reflexivity | now rewrite IH]. Qed.

Lemma length_append (a b : string) :
  String.length (a ++ b) = (String.length a + String.length b)%nat.
Proof. induction a as [|x a IH]; simpl; [reflexivity | now rewrite IH]. Qed.

Lemma starts_with_append (p r : string) : starts_with p (p ++ r) = true.
Proof.
  induction p as [|c p IH]; simpl; [reflexivity|].
  now rewrite Ascii.eqb_refl, IH.
Qed.

Lemma starts_with_split (p s : string) :
  starts_with p s = true -> s = p ++ drop (String.length p) s.
Proof.
  revert s; induction p as [|c p IH]; intros s H; simpl in *.
  - reflexivity.
  - destruct s as [|d s]; [discriminate|].
    apply andb_true_iff in H as [Hc Hp].
    apply Ascii.eqb_eq in Hc; subst d.
    simpl. f_equal. now apply IH.
Qed.

Lemma drop_append (p r : string) : drop (String.length p) (p ++ r) = r.
Proof. induction p as [|c p IH]; simpl; [now destruct r | exact IH]. Qed.

(** A prefix of [a ++ t] is a prefix of [a], or covers [a] and goes on
    into [t]. *)
Lemma starts_with_across (a p t : string) :
  starts_with p (a ++ t) = true ->
  starts_with p a = true \/
  exists p', p = a ++ p' /\ p' <> "" /\ starts_with p' t = true.
Proof.
  revert p; induction a as [|c a IH]; intros p H; simpl in *.
  - destruct p as [|x p]; [now left|].
    right. exists (String x p). repeat split; [discriminate | exact H].
  - destruct p as [|x p]; [now left|].
    apply andb_true_iff in H as [Hc Hp].
    apply Ascii.eqb_eq in Hc; subst x.
    destruct (IH _ Hp) as [Hin | (p' & -> & Hne & Hp')].
    + left. simpl. now rewrite Ascii.eqb_refl.
    + right. exists p'. now repeat split.
Qed.

Lemma starts_with_shorter (p s t : string) :
  starts_with p (s ++ t) = true ->
  (String.length p <= String.length s)%nat ->
  starts_with p s = true.
Proof.
  revert s; induction p as [|c p IH]; intros s H Hlen; simpl in *.
  - reflexivity.
  - destruct s as [|d s]; simpl in *; [lia|].
    apply andb_true_iff in H as [Hc Hp]. rewrite Hc. simpl.
    apply IH; [exact Hp | lia].
Qed.

Lemma starts_with_occurs (p s : string) :
  starts_with p s = true -> occurs p s.
Proof.
  intros H. exists "", (drop (String.length p) s). simpl.
  now apply starts_with_split.
Qed.

Lemma occurs_tail (p s : string) (c : ascii) :
  occurs p s -> occurs p (String c s).
Proof.
  intros (a & b & ->). now exists (String c a), b.
Qed.

Lemma cut_sound (needle s before after : string) :
  cut needle s = Some (before, after) -> s = before ++ needle ++ after.
Proof.
  revert before after; induction s as [|c s IH]; intros before after H.
  - simpl in H. destruct (starts_with needle "") eqn:E; [|discriminate].
    injection H as <- <-. simpl. now apply starts_with_split.
  - simpl in H. destruct (starts_with needle (String c s)) eqn:E.
    + injection H as <- <-. simpl. now apply starts_with_split.
    + destruct (cut needle s) as [[b a]|] eqn:C; [|discriminate].
      injection H as <- <-. simpl. f_equal. now apply IH.
Qed.

Lemma cut_none (needle s : string) :
  cut needle s = None -> ~ occurs needle s.
Proof.
  induction s as [|c s IH]; intros H (a & b & Heq).
  - simpl in H. destruct (starts_with needle "") eqn:E; [discriminate|].
    destruct a; [|discriminate]. simpl in Heq.
    rewrite Heq, starts_with_append in E. discriminate.
  - simpl in H. destruct (starts_with needle (String c s)) eqn:E; [discriminate|].
    destruct (cut needle s) as [[b' a']|] eqn:C; [discriminate|].
    destruct a as [|x a]; simpl in Heq.
    + rewrite Heq, starts_with_append in E. discriminate.
    + injection Heq as _ Heq. apply IH; [reflexivity|]. now exists a, b.
Qed.

Lemma occurs_cut (needle s : string) :
  occurs needle s -> exists before after, cut needle s = Some (before, after).
Proof.
  intros H. destruct (cut needle s) as [[b a]|] eqn:C; [now exists b, a|].
  now apply cut_none in C.
Qed.

Lemma no_overlap_suffix (p r x p' : string) :
  no_overlap_from p r = true -> r = x ++ p' -> p' <> "" ->
  starts_with p' p = false.
Proof.
  revert r; induction x as [|c x IH]; intros r H -> Hne; simpl in *.
  - destruct p' as [|d p']; [congruence|]. simpl in H.
    apply andb_true_iff in H as [H _]. now apply negb_true_iff in H.
  - apply andb_true_iff in H as [_ H]. now apply (IH _ H).
Qed.

(** An unbordered needle is found where it was put, provided it does not
    occur before. *)
Lemma cut_append (needle before after : string) :
  unbordered needle = true ->
  ~ occurs needle before ->
  cut needle (before ++ needle ++ after) = Some (before, after).
Proof.
  intros Hu. induction before as [|c before IH]; intros Hno.
  - simpl. destruct needle as [|x needle]; [discriminate|].
    simpl. rewrite Ascii.eqb_refl, starts_with_append. simpl.
    now rewrite drop_append.
  - assert (E : starts_with needle (String c before ++ needle ++ after) = false).
    { destruct (starts_with needle (String c before ++ needle ++ after)) eqn:E;
        [|reflexivity].
      exfalso. apply starts_with_across in E as [Hin | (p' & Hp & Hne & Hp')].
      - apply Hno. now apply starts_with_occurs.
      - assert (Hs : starts_with p' needle = true).
        { apply starts_with_shorter with (t := after); [exact Hp'|].
          rewrite Hp. rewrite length_append. lia. }
        destruct needle as [|x needle]; [discriminate|].
        simpl in Hp. injection Hp as _ Hp.
        simpl in Hu. rewrite (no_overlap_suffix _ _ _ _ Hu Hp Hne) in Hs.
        discriminate. }
    change (String c before ++ needle ++ after)
      with (String c (before ++ needle ++ after)) in *.
    simpl. simpl in E. rewrite E.
    rewrite IH; [reflexivity|].
    intros Hocc. apply Hno. now apply occurs_tail.
Qed.

Lemma match_fence_no_opening (opening text : string) :
  ~ occurs opening text -> match_fence opening text = None.
Proof.
  intros H. unfold match_fence.
  destruct (cut opening text) as [[b a]|] eqn:C; [|reflexivity].
  exfalso. apply H. exists b, a. now apply cut_sound.
Qed.

Lemma match_fence_no_closing (opening text : string) :
  ~ occurs fence_close text -> match_fence opening text = None.
Proof.
  intros H. unfold match_fence.
  destruct (cut opening text) as [[b a]|] eqn:C; [|reflexivity].
  destruct (cut fence_close a) as [[i r]|] eqn:D; [|reflexivity].
  exfalso. apply H. apply cut_sound in C, D. subst text a.
  exists (b ++ opening ++ i), r. now rewrite !append_assoc.
Qed.

Lemma cut_head (needle s : string) :
  starts_with needle s = true ->
  cut needle s = Some ("", drop (String.length needle) s).
Proof. intros H. destruct s; simpl; now rewrite H. Qed.

Lemma cut_step (needle s : string) (c : ascii) :
  starts_with needle (String c s) = false ->
  cut needle (String c s) =
  match cut needle s with
  | Some (before, after) => Some (String c before, after)
  | None => None
  end.
Proof. intros H. simpl cut. now rewrite H. Qed.

Lemma drop_append_le (n : nat) (a b : string) :
  (n <= String.length a)%nat -> drop n (a ++ b) = drop n a ++ b.
Proof.
  revert a; induction n as [|n IH]; intros a H; [reflexivity|].
  destruct a as [|c a]; simpl in *; [lia|]. apply IH. lia.
Qed.

(** What follows the leftmost occurrence contains what follows any other. *)
Lemma cut_leftmost (needle b rest b0 a0 : string) :
  cut needle (b ++ needle ++ rest) = Some (b0, a0) ->
  exists x, a0 = x ++ rest.
Proof.
  revert b0; induction b as [|c b IH]; intros b0 C.
  - simpl in C. rewrite cut_head in C by apply starts_with_append.
    injection C as _ <-. rewrite drop_append. now exists "".
  - change (String c b ++ needle ++ rest)
      with (String c (b ++ needle ++ rest)) in C.
    destruct (starts_with needle (String c (b ++ needle ++ rest))) eqn:E.
    + rewrite cut_head in C by exact E. injection C as _ <-.
      change (String c (b ++ needle ++ rest))
        with (String c b ++ needle ++ rest) in *.
      apply starts_with_across in E as [Hin | (p' & Hp & Hne & Hp')].
      * exists (drop (String.length needle) (String c b) ++ needle).
        rewrite append_assoc. apply drop_append_le.
        apply starts_with_split in Hin.
        apply (f_equal String.length) in Hin.
        rewrite length_append in Hin. lia.
      * exists (drop (String.length p') needle).
        apply starts_with_split in Hp'.
        rewrite Hp' at 1. rewrite <- append_assoc, <- Hp, drop_append.
        apply drop_append_le.
        apply (f_equal String.length) in Hp.
        rewrite length_append in Hp. lia.
    + rewrite cut_step in C by exact E.
      destruct (cut needle (b ++ needle ++ rest)) as [[b1 a1]|] eqn:C1;
        [|discriminate].
      injection C as _ <-. now apply (IH b1).
Qed.

(** A pattern matches exactly the texts that contain an opening followed,
    after any interior, by a closing. *)
Lemma match_fence_some (opening text : string) :
  (exists interior, match_fence opening text = Some interior) <->
  exists before interior after,
    text = before ++ opening ++ interior ++ fence_close ++ after.
Proof.
  split.
  - intros (i & H). unfold match_fence in H.
    destruct (cut opening text) as [[b a]|] eqn:C; [|discriminate].
    destruct (cut fence_close a) as [[i' r]|] eqn:D; [|discriminate].
    apply cut_sound in C, D. subst. now exists b, i', r.
  - intros (b & i & a & ->). unfold match_fence.
    destruct (cut opening (b ++ opening ++ i ++ fence_close ++ a))
      as [[b0 a0]|] eqn:C.
    + destruct (cut fence_close a0) as [[i0 r0]|] eqn:D; [now exists i0|].
      exfalso. apply cut_none in D. apply D.
      apply cut_leftmost in C as (x & ->).
      exists (x ++ i), a. now rewrite !append_assoc.
    + exfalso. apply cut_none in C. apply C.
      now exists b, (i ++ fence_close ++ a).
Qed.

(** *** A text with one block: where three backticks can be *)

Lemma append_cancel (a s t : string) : a ++ s = a ++ t -> s = t.
Proof.
  induction a as [|c a IH]; simpl; intros H; [exact H|].
  injection H as H. now apply IH.
Qed.

Lemma append_longer (a u : string) : a = a ++ u -> u = "".
Proof.
  intros H. apply (f_equal String.length) in H.
  rewrite length_append in H. destruct u; [reflexivity | simpl in H; lia].
Qed.

Lemma ends_with_newline_append (s : string) : ends_with_newline (s ++ nl) = true.
Proof.
  induction s as [|c s IH]; [reflexivity|].
  simpl. destruct (s ++ nl) eqn:E; [|exact IH].
  destruct s; discriminate.
Qed.

(** A backtick of [a ++ s] lies in [s] when [a] has none. *)
Lemma backtick_after (a s x r : string) :
  backtick_free a = true ->
  a ++ s = x ++ String "`" r ->
  exists x', x = a ++ x' /\ s = x' ++ String "`" r.
Proof.
  revert x; induction a as [|c a IH]; intros x Ha H.
  - now exists x.
  - simpl in Ha. apply andb_true_iff in Ha as [Hc Ha].
    destruct x as [|d x]; simpl in H; injection H as Hd H.
    + subst c. discriminate.
    + subst d. destruct (IH x Ha H) as (x' & -> & Hs). now exists x'.
Qed.

(** So does a character followed by a backtick, unless it is the last
    character of [a]. *)
Lemma before_backtick_after (a s x r : string) (d : ascii) :
  backtick_free a = true ->
  a ++ s = x ++ String d (String "`" r) ->
  (a = x ++ String d "" /\ s = String "`" r)
  \/ exists x', x = a ++ x' /\ s = x' ++ String d (String "`" r).
Proof.
  revert x; induction a as [|c a IH]; intros x Ha H.
  - right. now exists x.
  - simpl in Ha. apply andb_true_iff in Ha as [Hc Ha].
    destruct x as [|e x]; simpl in H; injection H as He H.
    + subst d. destruct a as [|c' a]; simpl in H.
      * left. now split.
      * injection H as -> _. discriminate.
    + subst e. destruct (IH x Ha H) as [[-> Hs] | (x' & -> & Hs)].
      * left. now split.
      * right. now exists x'.
Qed.

(** Three backticks at the head of a text, and three backticks followed by
    something else [d] at [x]: either [x] is empty, or the latter lie after
    the former. *)
Lemma delimiter_then (t x y : string) (d : ascii) :
  d <> "`"%char ->
  (forall t', t <> String "`" t') ->
  "```" ++ t = x ++ "```" ++ String d y ->
  (x = "" /\ t = String d y)
  \/ exists x', x = "```" ++ x' /\ t = x' ++ "```" ++ String d y.
Proof.
  intros Hd Ht H.
  destruct x as [|c1 x]; simpl in H.
  { left. split; [reflexivity|]. now injection H. }
  injection H as <- H.
  destruct x as [|c2 x]; simpl in H.
  { exfalso. injection H as H. now apply (Ht (String d y)). }
  injection H as <- H.
  destruct x as [|c3 x]; simpl in H.
  { exfalso. injection H as H. now apply (Ht (String "`" (String d y))). }
  injection H as <- H.
  right. now exists x.
Qed.

(** The same for three backticks that follow something else. *)
Lemma delimiter_then_before (t x y : string) (d : ascii) :
  d <> "`"%char ->
  "```" ++ t = x ++ String d ("```" ++ y) ->
  exists x', x = "```" ++ x' /\ t = x' ++ String d ("```" ++ y).
Proof.
  intros Hd H.
  destruct x as [|c1 x]; simpl in H; [injection H as <-; congruence|].
  injection H as <- H.
  destruct x as [|c2 x]; simpl in H; [injection H as <-; congruence|].
  injection H as <- H.
  destruct x as [|c3 x]; simpl in H; [injection H as <-; congruence|].
  injection H as <- H.
  now exists x.
Qed.

Lemma backtick_free_not_head (b r : string) :
  backtick_free b = true -> b <> "" ->
  forall t', b ++ r <> String "`" t'.
Proof.
  intros Hb Hne t' H. destruct b as [|c b]; [congruence|].
  simpl in *. injection H as -> _. discriminate.
Qed.

Lemma backtick_free_no_delimiter (c x r : string) :
  backtick_free c = true -> c <> x ++ String "`" r.
Proof.
  revert x; induction c as [|e c IH]; intros x Hc H.
  - destruct x; discriminate.
  - simpl in Hc. apply andb_true_iff in Hc as [He Hc].
    destruct x as [|e' x]; simpl in H; injection H as -> H.
    + discriminate.
    + now apply (IH x).
Qed.

(** In a text whose only backticks are the two delimiters of one block,
    three backticks followed by another character are one of the two
    delimiters. *)
Lemma delimiter_followed (a b c x y : string) (d : ascii) :
  backtick_free a = true -> backtick_free b = true -> backtick_free c = true ->
  d <> "`"%char ->
  a ++ "```" ++ b ++ "```" ++ c = x ++ "```" ++ String d y ->
  (x = a /\ b ++ "```" ++ c = String d y)
  \/ (x = a ++ "```" ++ b /\ c = String d y).
Proof.
  intros Ha Hb Hc Hd H.
  destruct (backtick_after a _ x _ Ha H) as (x1 & -> & H1).
  destruct b as [|e b].
  - (* six backticks in a row *)
    simpl in H1.
    destruct x1 as [|c1 x1]; simpl in H1.
    { exfalso. injection H1 as <-. congruence. }
    injection H1 as <- H1.
    destruct x1 as [|c2 x1]; simpl in H1.
    { exfalso. injection H1 as <-. congruence. }
    injection H1 as <- H1.
    destruct x1 as [|c3 x1]; simpl in H1.
    { exfalso. injection H1 as <-. congruence. }
    injection H1 as <- H1.
    destruct (delimiter_then c x1 y d Hd) as [[-> E] | (x2 & -> & E)].
    + intros t' E. apply (backtick_free_no_delimiter c "" t' Hc E).
    + exact H1.
    + right. split; [reflexivity | exact E].
    + exfalso. apply (backtick_free_no_delimiter c x2 _ Hc E).
  - destruct (delimiter_then _ x1 y d Hd
                (backtick_free_not_head (String e b) _ Hb ltac:(discriminate)) H1)
      as [[-> E] | (x2 & -> & E)].
    + left. split; [now rewrite append_empty_r | exact E].
    + destruct (backtick_after (String e b) _ x2 _ Hb E) as (x3 & -> & E3).
      destruct (delimiter_then c x3 y d Hd) as [[-> E4] | (x4 & -> & E4)].
      * intros t' E'. apply (backtick_free_no_delimiter c "" t' Hc E').
      * exact E3.
      * right. split; [now rewrite append_empty_r | exact E4].
      * exfalso. apply (backtick_free_no_delimiter c x4 _ Hc E4).
Qed.

(** And three backticks that follow another character are one of the two
    delimiters. *)
Lemma delimiter_preceded (a b c x y : string) (d : ascii) :
  backtick_free a = true -> backtick_free b = true -> backtick_free c = true ->
  d <> "`"%char ->
  a ++ "```" ++ b ++ "```" ++ c = x ++ String d ("```" ++ y) ->
  x ++ String d "" = a \/ x ++ String d "" = a ++ "```" ++ b.
Proof.
  intros Ha Hb Hc Hd H.
  destruct (before_backtick_after a _ x _ d Ha H) as [[-> _] | (x1 & -> & H1)].
  { now left. }
  right.
  destruct (delimiter_then_before _ x1 _ d Hd H1) as (x2 & -> & H2).
  destruct (before_backtick_after b _ x2 _ d Hb H2) as [[-> _] | (x3 & -> & H3)].
  - now rewrite !append_assoc.
  - exfalso.
    destruct (delimiter_then_before _ x3 _ d Hd H3) as (x4 & -> & H4).
    apply (backtick_free_no_delimiter c (x4 ++ String d "") ("``" ++ y) Hc).
    rewrite H4, append_assoc. reflexivity.
Qed.

Ltac longer_differs :=
  match goal with
  | E : _ = _ |- _ =>
      apply (f_equal String.length) in E;
      rewrite ?length_append in E; simpl in E;
      rewrite ?length_append in E; simpl in E; lia
  end.

(** When a pattern matches a text with one block, the block opens with the
    opening of the pattern and ends with a newline. *)
Lemma one_block_match (a b c before rest interior after : string) (d : ascii) :
  backtick_free a = true -> backtick_free b = true -> backtick_free c = true ->
  d <> "`"%char ->
  a ++ "```" ++ b ++ "```" ++ c
    = before ++ ("```" ++ String d rest) ++ interior ++ fence_close ++ after ->
  b = (String d rest ++ interior) ++ nl.
Proof.
  intros Ha Hb Hc Hd H.
  assert (H1 : a ++ "```" ++ b ++ "```" ++ c
               = before ++ "```" ++ String d (rest ++ interior ++ fence_close ++ after)).
  { rewrite H. now rewrite !append_assoc. }
  assert (H2 : a ++ "```" ++ b ++ "```" ++ c
               = (before ++ "```" ++ String d rest ++ interior)
                 ++ String "010" ("```" ++ after)).
  { rewrite H. now rewrite !append_assoc. }
  apply (delimiter_followed a b c _ _ d Ha Hb Hc Hd) in H1.
  apply (delimiter_preceded a b c _ _ "010"%char Ha Hb Hc) in H2; [|discriminate].
  destruct H1 as [[-> _] | [-> _]]; destruct H2 as [E | E].
  - exfalso. longer_differs.
  - rewrite !append_assoc in E. apply append_cancel in E.
    change ("```" ++ String d rest ++ interior ++ String "010" "")
      with ("```" ++ (String d rest ++ interior ++ nl)) in E.
    apply append_cancel in E. rewrite append_assoc. now symmetry.
  - exfalso. longer_differs.
  - exfalso. longer_differs.
Qed.

(** A text with one block whose opening delimiter (with or without json) is
    not followed by a newline, or whose closing delimiter is not preceded by
    one, matches neither pattern. *)
Lemma one_block_unrecognised (a b c : string) :
  backtick_free a = true -> backtick_free b = true -> backtick_free c = true ->
  (starts_with nl b = false /\ starts_with ("json" ++ nl) b = false)
  \/ ends_with_newline b = false ->
  jsonMatch (a ++ "```" ++ b ++ "```" ++ c) = None.
Proof.
  intros Ha Hb Hc H.
  assert (N : forall (d : ascii) (rest : string),
             d <> "`"%char ->
             starts_with (String d rest) b = false \/ ends_with_newline b = false ->
             match_fence ("```" ++ String d rest) (a ++ "```" ++ b ++ "```" ++ c)
             = None).
  { intros d rest Hd Hn.
    destruct (match_fence _ _) as [i|] eqn:E; [|reflexivity].
    exfalso.
    destruct (proj1 (match_fence_some _ _) (ex_intro _ i E))
      as (before & interior & after & Heq).
    apply (one_block_match a b c before rest interior after d Ha Hb Hc Hd) in Heq.
    destruct Hn as [Hn | Hn]; rewrite Heq in Hn.
    - rewrite append_assoc, starts_with_append in Hn. discriminate.
    - rewrite ends_with_newline_append in Hn. discriminate. }
  unfold jsonMatch.
  change fence_json_open with ("```" ++ String "j" ("son" ++ nl)).
  change fence_open with ("```" ++ String "010" "").
  rewrite !N; try discriminate; tauto.
Qed.

End StringFacts.

(* ------------------------------------------------------------------ *)
(** ** The response extractor *)

Section ExtractorFacts.
Context {rt : Runtime}.

Lemma opening_has_backticks (text : string) :
  occurs fence_json_open text \/ occurs fence_open text -> occurs "```" text.
Proof.
  intros [(a & b & ->) | (a & b & ->)].
  - exists a, ("json" ++ nl ++ b). reflexivity.
  - exists a, (nl ++ b). reflexivity.
Qed.

Lemma jsonMatch_none (text : string) :
  (~ occurs fence_json_open text /\ ~ occurs fence_open text)
  \/ ~ occurs fence_close text ->
  jsonMatch text = None.
Proof.
  intros [[H1 H2] | H]; unfold jsonMatch.
  - now rewrite !match_fence_no_opening.
  - now rewrite !match_fence_no_closing.
Qed.

Lemma jsonText_fenced (before interior after : string) :
  ~ occurs fence_json_open before ->
  ~ occurs fence_close interior ->
  jsonText (before ++ fence_json_open ++ interior ++ fence_close ++ after)
  = interior.
Proof.
  intros Hb Hi. unfold jsonText, jsonMatch, match_fence.
  rewrite (cut_append fence_json_open) by (reflexivity || assumption).
  rewrite (cut_append fence_close) by (reflexivity || assumption).
  reflexivity.
Qed.

Lemma as_array_throws (v : JSON) :
  is_array v = false -> as_array v = Throw TypeError.
Proof. destruct v; simpl; intros H; reflexivity || discriminate H. Qed.

Lemma as_array_normal (v : JSON) (articles : list JSON) :
  as_array v = Normal articles <-> v = JArray articles.
Proof. destruct v; simpl; split; intros H; congruence. Qed.

(** C3.  The extractor fails exactly when JSON.parse throws on the text it
    is given (the interior of the fence, or the whole text when there is no
    fence) or the parsed value is not an array; in particular a text whose
    JSON parses to something other than an array, an object say, gives an
    error and not that value. *)
Theorem extract_fails_exactly (generatedText : string) :
  ((exists e, extract generatedText = Throw e) <->
   (JSON_parse (jsonText generatedText) = None \/
    exists v, JSON_parse (jsonText generatedText) = Some v /\ is_array v = false))
  /\
  (forall v, JSON_parse (jsonText generatedText) = Some v ->
             is_array v = false ->
             extract generatedText = Throw TypeError)
  /\
  (forall articles, extract generatedText = Normal articles <->
                    JSON_parse (jsonText generatedText) = Some (JArray articles)).
Proof.
  unfold extract, parse_articles.
  destruct (JSON_parse (jsonText generatedText)) as [v|]; cbn [bind].
  - split; [split|split].
    + intros [e He]. right. exists v. split; [reflexivity|].
      destruct v; try reflexivity. discriminate He.
    + intros [H | (v' & Hv & Ha)]; [discriminate H|].
      injection Hv as <-. exists TypeError. now apply as_array_throws.
    + intros v' Hv Ha. injection Hv as <-. now apply as_array_throws.
    + intros articles. rewrite as_array_normal.
      split; intros H; congruence.
  - split; [split|split].
    + intros _. now left.
    + intros _. now exists SyntaxError.
    + intros v H. discriminate H.
    + intros articles. split; intros H; discriminate H.
Qed.

(** C4, as the code has it.  When the text holds a block that opens with
    three backticks, json and a newline, and closes with a newline and three
    backticks, when no such opening occurs in the prose before it and its
    interior holds no closing, and the interior is the JSON of an array, then
    the extractor returns the records of that array, whatever the prose
    around the block. *)
Theorem extract_fenced_json (before interior after : string) (articles : list JSON) :
  ~ occurs fence_json_open before ->
  ~ occurs fence_close interior ->
  JSON_parse interior = Some (JArray articles) ->
  extract (before ++ fence_json_open ++ interior ++ fence_close ++ after)
  = Normal articles.
Proof.
  intros Hb Hi P. unfold extract, parse_articles.
  rewrite jsonText_fenced by assumption. now rewrite P.
Qed.

(** C5.  A text without any fence that is the JSON of an array: the
    extractor returns the parse of the whole text. *)
Theorem extract_bare_array (generatedText : string) (articles : list JSON) :
  ~ occurs "```" generatedText ->
  JSON_parse generatedText = Some (JArray articles) ->
  extract generatedText = Normal articles.
Proof.
  intros H P. unfold extract, parse_articles, jsonText.
  rewrite jsonMatch_none.
  - now rewrite P.
  - left. split; intros Ho; apply H, opening_has_backticks; tauto.
Qed.

Lemma match_fence_none (opening text : string) :
  match_fence opening text = None <-> ~ fenced opening text.
Proof.
  unfold fenced. rewrite <- match_fence_some. split.
  - intros H (i & E). congruence.
  - intros H. destruct (match_fence opening text) as [i|]; [|reflexivity].
    exfalso. apply H. now exists i.
Qed.

Lemma jsonMatch_unfenced (text : string) :
  jsonMatch text = None
  <-> ~ fenced fence_json_open text /\ ~ fenced fence_open text.
Proof.
  rewrite <- !match_fence_none. unfold jsonMatch.
  destruct (match_fence fence_json_open text); [|tauto].
  split; [discriminate | intros [H _]; discriminate H].
Qed.

(** What is captured is shorter than the text. *)
Lemma match_fence_shorter (opening text interior : string) :
  match_fence opening text = Some interior ->
  (String.length interior < String.length text)%nat.
Proof.
  unfold match_fence.
  destruct (cut opening text) as [[b a]|] eqn:C; [|discriminate].
  destruct (cut fence_close a) as [[i r]|] eqn:D; [|discriminate].
  intros H. injection H as ->.
  apply cut_sound in C, D. subst.
  rewrite !length_append. unfold fence_close. simpl. lia.
Qed.

Lemma jsonText_whole (text : string) :
  jsonMatch text = None <-> jsonText text = text.
Proof.
  unfold jsonText. split; [now intros ->|].
  destruct (jsonMatch text) as [m|] eqn:M; [|reflexivity].
  intros ->. exfalso. unfold jsonMatch in M.
  destruct (match_fence fence_json_open text) as [m|] eqn:J.
  - injection M as ->. apply match_fence_shorter in J. lia.
  - apply match_fence_shorter in M. lia.
Qed.

(** C10, as the code has it.  The extractor recognises no fence, and parses
    the whole text, exactly when the text holds no opening delimiter
    followed by a newline (with or without json) that has a newline and
    three backticks somewhere after it.  That is so of a text with a fenced
    block, the two delimiters of the block being the only backticks of the
    text, whose opening delimiter, with or without json, is not immediately
    followed by a newline, or whose closing delimiter is not immediately
    preceded by one, as when the block is written on a single line; and of
    any text in which no opening delimiter is followed by a newline, or no
    three backticks are preceded by one. *)
Theorem fence_needs_newlines (generatedText : string) :
  ((exists before block after,
       generatedText = before ++ "```" ++ block ++ "```" ++ after
       /\ backtick_free before = true
       /\ backtick_free block = true
       /\ backtick_free after = true
       /\ ((starts_with nl block = false
            /\ starts_with ("json" ++ nl) block = false)
           \/ ends_with_newline block = false))
   \/ (~ occurs fence_json_open generatedText /\ ~ occurs fence_open generatedText)
   \/ ~ occurs fence_close generatedText ->
   ~ fenced fence_json_open generatedText /\ ~ fenced fence_open generatedText)
  /\ (~ fenced fence_json_open generatedText /\ ~ fenced fence_open generatedText
      <-> jsonMatch generatedText = None)
  /\ (jsonMatch generatedText = None <-> jsonText generatedText = generatedText)
  /\ (jsonMatch generatedText = None ->
      extract generatedText =
        match JSON_parse generatedText with
        | Some v => as_array v
        | None => Throw SyntaxError
        end).
Proof.
  split; [|split; [|split]].
  - intros H. apply jsonMatch_unfenced.
    destruct H as [(a & b & c & -> & Ha & Hb & Hc & Hn) | H].
    + now apply one_block_unrecognised.
    + now apply jsonMatch_none.
  - symmetry. apply jsonMatch_unfenced.
  - apply jsonText_whole.
  - intros N. unfold extract, parse_articles.
    rewrite (proj1 (jsonText_whole generatedText) N).
    now destruct (JSON_parse generatedText).
Qed.

End ExtractorFacts.

(* ------------------------------------------------------------------ *)
(** ** The fallback loop *)

Lemma attempted_app (l1 l2 : list LogLine) :
  attempted (l1 ++ l2)%list = (attempted l1 ++ attempted l2)%list.
Proof.
  induction l1 as [|x l1 IH]; simpl; [reflexivity|].
  destruct x; simpl; now rewrite IH.
Qed.

Lemma failures_app (l1 l2 : list LogLine) :
  failures (l1 ++ l2)%list = (failures l1 + failures l2)%nat.
Proof. unfold failures. now rewrite filter_app, length_app. Qed.

Ltac recorded :=
  eexists; split; [reflexivity|];
  constructor; simpl; rewrite ?attempted_app, ?failures_app;
  unfold failures; simpl; rewrite <- ?app_assoc; simpl;
  try reflexivity; try lia.

Ltac exists_world batch := eexists; exists batch; split; [reflexivity|].


Section LoopFacts.
Context {rt : Runtime}.
Variable env : Env.

Lemma articlesWithIds_spec (articles : list JSON) :
  forall (index : nat) (w : World),
  exists batch,
    articlesWithIds env index articles w =
      (Normal batch,
       mkWorld (cachedArticles w) (fetched w) (console w)
               (clock_reads w + List.length articles) (random_reads w))
    /\ List.length batch = List.length articles
    /\ forall i article,
         nth_error articles i = Some article ->
         nth_error batch i =
           Some (with_id (Date_now env (clock_reads w + i)) (index + i) article).
Proof.
  induction articles as [|a articles IH]; intros index w.
  - exists []. simpl. rewrite Nat.add_0_r. destruct w; repeat split.
    intros [|i] article H; discriminate H.
  - simpl articlesWithIds. unfold bindM at 1. unfold now at 1.
    destruct (IH (S index)
                (mkWorld (cachedArticles w) (fetched w) (console w)
                         (S (clock_reads w)) (random_reads w)))
      as (batch & E & L & N).
    unfold bindM at 1. rewrite E. simpl.
    exists (with_id (Date_now env (clock_reads w)) index a :: batch).
    repeat split.
    + unfold ret. do 2 f_equal. lia.
    + simpl. now rewrite L.
    + intros [|i] article H; simpl in *.
      * injection H as <-. now rewrite !Nat.add_0_r.
      * rewrite (N i article H). simpl. do 3 f_equal; lia.
Qed.

Lemma attempt_fails (key prompt model : string) (w : World) :
  articles_of_response
    (fetch env (List.length (fetched w)) (request_for key prompt model)) = None ->
  exists w',
    attempt env key prompt model w = (Continue, w')
    /\ turn_of model (request_for key prompt model) 1 0 w w'.
Proof.
  intros H. unfold attempt, try_model, bindM, say, do_fetch, lift, ret.
  unfold articles_of_response in H.
  destruct (fetch env _ _) as [[o j]|]; simpl; [|recorded].
  destruct j as [data|]; simpl; [|recorded].
  destruct o; simpl.
  - destruct (generated_text data) as [t|e]; simpl in *; [|recorded].
    destruct (extract t) as [articles|e]; [discriminate|]. simpl. recorded.
  - destruct (error_message data) as [m|e]; simpl; recorded.
Qed.

Lemma attempt_succeeds (key prompt model : string) (w : World)
    (articles : list JSON) :
  articles_of_response
    (fetch env (List.length (fetched w)) (request_for key prompt model))
    = Some articles ->
  exists w' batch,
    attempt env key prompt model w = (Return (JArray batch), w')
    /\ turn_of model (request_for key prompt model) 0 (List.length articles) w w'
    /\ List.length batch = List.length articles
    /\ forall i article,
         nth_error articles i = Some article ->
         nth_error batch i =
           Some (with_id (Date_now env (clock_reads w + i)) i article).
Proof.
  intros H. unfold attempt, try_model, bindM, say, do_fetch, lift, ret.
  unfold articles_of_response in H.
  destruct (fetch env _ _) as [[o j]|]; simpl; [|discriminate].
  destruct j as [data|]; [|destruct o; discriminate].
  destruct o; [|discriminate]. simpl.
  destruct (generated_text data) as [t|e]; simpl in *; [|discriminate].
  destruct (extract t) as [articles'|e]; [|discriminate]. injection H as ->.
  match goal with
  | |- context [articlesWithIds env 0 articles ?w0] =>
      destruct (articlesWithIds_spec articles 0 w0) as (batch & E & L & N);
      rewrite E
  end.
  simpl in *. exists_world batch. repeat split; try assumption.
  all: simpl; rewrite ?attempted_app, ?failures_app; unfold failures; simpl;
    rewrite <- ?app_assoc; simpl; try reflexivity; try lia.
Qed.

Variables key prompt : string.





End LoopFacts.

(* ------------------------------------------------------------------ *)
(** ** Synthetic ids *)

Section IdFacts.
Context {rt : Runtime}.
Variable env : Env.

Lemma id_of_with_id (t : Z) (index : nat) (article : JSON) :
  id_of (with_id t index article) =
    match lookup "id" (spread article) with
    | Some own => Some own
    | None => Some (JNumber (inject_Z (t + Z.of_nat index)))
    end.
Proof.
  unfold with_id, id_of. simpl.
  destruct (lookup "id" (spread article)); reflexivity.
Qed.

(** Where the numbering does what its comment says (Add IDs to articles):
    when no record brings an id of its own and the clock does not step back
    while the records are numbered, the ids of the batch (each the reading
    of the clock plus the position of the record) are pairwise distinct. *)
Theorem ids_pairwise_distinct (articles : list JSON) (w : World) :
  Forall (fun a => has_own_id a = false) articles ->
  (forall i j, (i <= j)%nat -> (j < List.length articles)%nat ->
               (Date_now env (clock_reads w + i)
                <= Date_now env (clock_reads w + j))%Z) ->
  exists batch w',
    articlesWithIds env 0 articles w = (Normal batch, w')
    /\ (forall i article,
          nth_error articles i = Some article ->
          nth_error (map id_of batch) i =
            Some (Some (JNumber (inject_Z (Date_now env (clock_reads w + i)
                                           + Z.of_nat i)))))
    /\ NoDup (map id_of batch).
Proof.
  intros Hown Hclock.
  destruct (articlesWithIds_spec env articles 0 w) as (batch & E & L & N).
  assert (Hid : forall i article,
             nth_error articles i = Some article ->
             nth_error (map id_of batch) i =
               Some (Some (JNumber (inject_Z (Date_now env (clock_reads w + i)
                                              + Z.of_nat i))))).
  { intros i a Ha. rewrite nth_error_map, (N i a Ha). cbn [option_map].
    rewrite id_of_with_id.
    rewrite Forall_forall in Hown.
    specialize (Hown a (nth_error_In _ _ Ha)). unfold has_own_id in Hown.
    destruct (lookup "id" (spread a)); [discriminate | reflexivity]. }
  eexists batch, _. split; [exact E|]. split; [exact Hid|].
  apply NoDup_nth_error. intros i j Hi Hij.
  rewrite length_map, L in Hi.
  destruct (nth_error articles i) as [a|] eqn:Ai;
    [|apply nth_error_None in Ai; lia].
  rewrite (Hid i a Ai) in Hij.
  destruct (nth_error articles j) as [b|] eqn:Aj.
  - rewrite (Hid j b Aj) in Hij. injection Hij as Hij.
    assert (Hj : (j < List.length articles)%nat)
      by (apply nth_error_Some; congruence).
    destruct (Nat.lt_trichotomy i j) as [Lt | [Eq | Gt]]; [|exact Eq|].
    + specialize (Hclock i j (Nat.lt_le_incl _ _ Lt) Hj). lia.
    + specialize (Hclock j i (Nat.lt_le_incl _ _ Gt) Hi). lia.
  - apply nth_error_None in Aj.
    assert (Hn : nth_error (map id_of batch) j = None)
      by (apply nth_error_None; rewrite length_map, L; exact Aj).
    rewrite Hn in Hij. discriminate.
Qed.

End IdFacts.

(* ------------------------------------------------------------------ *)
(** ** The cache *)

(** C7.  Replacing the cache with a batch stores that batch, whatever was
    cached, and answers its length; reading the cache then gives the records
    of the batch in their order.  With an empty batch, or with none (the
    request has no articles, or null), the cache is emptied: the count is 0
    and a reading gives the empty sequence. *)
Theorem cache_replace_then_read (body : JSValue) (w : World) :
  (forall batch,
      get_named body "articles" = Normal (Some (JArray batch)) ->
      let (answer, w') := update_cache body w in
      answer = Json 200 (JObject
                 [("success", JBool true);
                  ("count", JNumber (inject_Z (Z.of_nat (List.length batch))))])
      /\ count_of answer = Some (JNumber (inject_Z (Z.of_nat (List.length batch))))
      /\ cachedArticles w' = JArray batch
      /\ fst (get_articles w') = Json 200 (JArray batch))
  /\
  (get_named body "articles" = Normal None \/
   get_named body "articles" = Normal (Some JNull) \/
   get_named body "articles" = Normal (Some (JArray [])) ->
   let (answer, w') := update_cache body w in
   count_of answer = Some (JNumber 0)
   /\ cachedArticles w' = JArray []
   /\ fst (get_articles w') = Json 200 (JArray [])).
Proof.
  split.
  - intros batch H. unfold update_cache. rewrite H. simpl. auto.
  - intros [H | [H | H]]; unfold update_cache; rewrite H; simpl; auto.
Qed.

(* ------------------------------------------------------------------ *)
(** ** The feed *)

Section FeedFacts.
Context {rt : Runtime}.





(** *** Counting the item elements *)

Lemma starts_with_not_prefix (needle s x : string) :
  starts_with s needle = false ->
  starts_with needle (s ++ x) = starts_with needle s.
Proof.
  revert needle; induction s as [|c s IH]; intros [|m needle]; simpl;
    try discriminate; try reflexivity.
  rewrite (Ascii.eqb_sym m c).
  destruct (Ascii.eqb c m); simpl; [apply IH | reflexivity].
Qed.

Lemma starts_with_whole (needle s x : string) :
  starts_with needle s = true ->
  starts_with needle (s ++ x) = true.
Proof.
  revert s; induction needle as [|m needle IH]; intros [|c s]; simpl;
    try discriminate; try reflexivity.
  destruct (Ascii.eqb m c); simpl; [apply IH | discriminate].
Qed.

(** The occurrences in a text and in what follows it add up when none can
    lie across the two: because of where the first ends, or because of how
    the second begins. *)
Lemma occurrences_literal (needle s x : string) :
  ends_clear needle s = true ->
  occurrences needle (s ++ x) = (occurrences needle s + occurrences needle x)%nat.
Proof.
  induction s as [|c s IH]; [reflexivity|].
  intros H. cbn [ends_clear] in H. apply andb_true_iff in H as [H1 H2].
  change (String c s ++ x) with (String c (s ++ x)).
  cbn [occurrences]. rewrite (IH H2).
  change (String c (s ++ x)) with (String c s ++ x).
  apply orb_true_iff in H1 as [H1 | H1].
  - apply negb_true_iff in H1. rewrite (starts_with_not_prefix _ _ x H1). lia.
  - rewrite H1, (starts_with_whole _ _ x H1). lia.
Qed.

Lemma starts_with_not_char (tail s rest : string) (c : ascii) :
  has_char c tail = false ->
  starts_with tail (s ++ String c rest) = starts_with tail s.
Proof.
  revert s; induction tail as [|m tail IH]; intros s H; [reflexivity|].
  cbn [has_char] in H. apply orb_false_iff in H as [H1 H2].
  destruct s as [|d s]; simpl.
  - rewrite Ascii.eqb_sym, H1. reflexivity.
  - now rewrite IH.
Qed.

Lemma occurrences_field (needle s x : string) :
  begins_clear needle x = true ->
  occurrences needle (s ++ x) = (occurrences needle s + occurrences needle x)%nat.
Proof.
  intros H. induction s as [|d s IH]; [reflexivity|].
  change (String d s ++ x) with (String d (s ++ x)).
  cbn [occurrences]. rewrite IH.
  assert (E : starts_with needle (String d (s ++ x))
              = starts_with needle (String d s)).
  { destruct needle as [|m tail]; [reflexivity|].
    destruct x as [|c rest].
    - now rewrite append_empty_r.
    - cbn [begins_clear] in H. apply negb_true_iff in H.
      cbn [starts_with]. now rewrite starts_with_not_char. }
  rewrite E. lia.
Qed.

Ltac count_pieces :=
  repeat match goal with
  | |- context [occurrences item_tag (?a ++ ?b)] =>
      first [ rewrite (occurrences_literal item_tag a b) by reflexivity
            | rewrite (occurrences_field item_tag a b) by reflexivity ]
  end;
  repeat match goal with
  | |- context [occurrences item_tag ?piece] =>
      tryif is_var piece then fail
      else (let n := eval vm_compute in (occurrences item_tag piece) in
            progress change (occurrences item_tag piece) with n)
  end.

(** The template of an item has one opening tag of an item; every other
    one comes with the texts that are put in, as they are. *)
Lemma occurrences_item_text
    (headline summary author category pubDate baseUrl id : string) :
  occurrences item_tag
    (item_text headline summary author category pubDate baseUrl id)
  = (1 + occurrences item_tag headline + occurrences item_tag summary
     + occurrences item_tag author + occurrences item_tag category
     + occurrences item_tag pubDate + occurrences item_tag baseUrl
     + occurrences item_tag id)%nat.
Proof.
  unfold item_text. count_pieces. lia.
Qed.



Lemma occurs_append_r (needle p s : string) :
  occurs needle s -> occurs needle (p ++ s).
Proof.
  intros (b & a & ->). exists (p ++ b), a. now rewrite append_assoc.
Qed.

(** Where a piece lies in a text that is made of literals and variables. *)
Ltac find_piece :=
  cbn [append];
  first [ exists ""; eexists;
          repeat (progress (cbn [append]; rewrite ?append_assoc)); reflexivity
        | apply occurs_tail; find_piece
        | apply occurs_append_r; find_piece ].

(** The texts are put into the template as they are, each into its own
    element. *)
Lemma item_text_pieces
    (headline summary author category pubDate baseUrl id : string) :
  let item := item_text headline summary author category pubDate baseUrl id in
  occurs ("<title><![CDATA[" ++ headline ++ "]]></title>") item
  /\ occurs ("<description><![CDATA[" ++ summary ++ "]]></description>") item
  /\ occurs ("<author>" ++ author ++ "</author>") item
  /\ occurs ("<category>" ++ category ++ "</category>") item
  /\ occurs ("<pubDate>" ++ pubDate ++ "</pubDate>") item
  /\ occurs ("<guid isPermaLink=" ++ q ++ "false" ++ q ++ ">"
             ++ baseUrl ++ "/#article-" ++ id ++ "</guid>") item.
Proof.
  cbv zeta. unfold item_text, nl, q. repeat split; find_piece.
Qed.





End FeedFacts.

(* ------------------------------------------------------------------ *)
(** ** Rounding to a double *)

Section DoubleFacts.














End DoubleFacts.

(* ------------------------------------------------------------------ *)
(** ** The category and the prompt *)

Section CategoryFacts.
Context {rt : Runtime}.
Variable env : Env.










End CategoryFacts.

(* ------------------------------------------------------------------ *)
(** ** The properties on the sample runs *)

Module Runs.
Import Sample.

Lemma not_in (needle s : string) : cut needle s = None -> ~ occurs needle s.
Proof. exact (cut_none needle s). Defined.


(** The same from the handler: the request, the answer, the models tried. *)
Lemma all_models_fail_request :
  fst (generate_news all_down politics start) = AggregateFailure
  /\ attempted (console (snd (generate_news all_down politics start))) = models
  /\ fst (generate_news_1_5 all_down politics start) = AggregateFailure
  /\ attempted (console (snd (generate_news_1_5 all_down politics start)))
     = models_1_5.
Proof. repeat split; vm_compute; reflexivity. Qed.


Lemma third_model_answers_request :
  fst (generate_news third_answers politics start)
  = Json 200
      (JArray
         [JObject [("id", JNumber 1760832000000);
                   ("headline", JString "Bengaluru traffic declared a heritage site")];
          JObject [("id", JNumber 1760832000002);
                   ("headline", JString "Chai break extended to nine hours")]])
  /\ console (snd (generate_news third_answers politics start))
     = [Trying "gemini-2.5-flash"; ModelError "gemini-2.5-flash";
        Trying "gemini-2.0-flash"; ModelFailed "gemini-2.0-flash" "quota exceeded";
        Trying "gemini-flash-latest"; Success "gemini-flash-latest"].
Proof. split; vm_compute; reflexivity. Qed.

(** A fenced object is not an array of records. *)
Lemma extract_fails_exactly_run :
  extract (fence_json_open ++ quoted "{'headline': 'One story only'}" ++ fence_close)
  = Throw TypeError.
Proof.
  apply (proj1 (proj2 (extract_fails_exactly
                         (fence_json_open ++ quoted "{'headline': 'One story only'}"
                          ++ fence_close)))
           (JObject [("headline", JString "One story only")])).
  - vm_compute. reflexivity.
  - reflexivity.
Defined.

Lemma extract_fenced_json_run :
  extract (("Sure! Here is today's news:" ++ nl) ++ fence_json_open
           ++ two_headlines ++ fence_close ++ (nl ++ "Enjoy."))
  = Normal two_records.
Proof.
  apply extract_fenced_json.
  - apply not_in. vm_compute. reflexivity.
  - apply not_in. vm_compute. reflexivity.
  - vm_compute. reflexivity.
Defined.

(** C4 as the specification words it fails: a block labeled json, written on
    one line, around a valid array; the extractor gives an error, not the
    array. *)
Lemma fence_on_one_line_not_extracted :
  JSON_parse " [1, 2] " = Some (JArray [JNumber 1; JNumber 2])
  /\ extract ("Here you go: " ++ "```json" ++ " [1, 2] " ++ "```" ++ "")
     = Throw SyntaxError.
Proof. split; vm_compute; reflexivity. Qed.

Lemma extract_bare_array_run :
  extract two_headlines
  = Normal two_records.
Proof.
  apply extract_bare_array.
  - apply not_in. vm_compute. reflexivity.
  - vm_compute. reflexivity.
Defined.

(** A block on one line, and a block whose delimiters are on lines of
    their own but glued to the array. *)
Lemma fence_needs_newlines_run :
  (jsonMatch "```json [1, 2] ```" = None
   /\ jsonText "```json [1, 2] ```" = "```json [1, 2] ```"
   /\ extract "```json [1, 2] ```" =
        match JSON_parse "```json [1, 2] ```" with
        | Some v => as_array v
        | None => Throw SyntaxError
        end)
  /\ jsonMatch (("Here:" ++ nl) ++ "```" ++ "json [1, 2]" ++ "```" ++ (nl ++ "Enjoy."))
     = None.
Proof.
  split.
  - destruct (fence_needs_newlines "```json [1, 2] ```") as (U & M & T & X).
    assert (N : jsonMatch "```json [1, 2] ```" = None).
    { apply M, U. right. right. apply not_in. vm_compute. reflexivity. }
    split; [exact N|]. split; [apply T, N | apply X, N].
  - destruct (fence_needs_newlines
                (("Here:" ++ nl) ++ "```" ++ "json [1, 2]" ++ "```" ++ (nl ++ "Enjoy.")))
      as (U & M & _).
    apply M, U.
    left. exists ("Here:" ++ nl), "json [1, 2]", (nl ++ "Enjoy.").
    repeat split; try reflexivity. left. split; reflexivity.
Defined.

(** C10 as the specification words it fails: the text holds a block labeled
    json on one line, its opening delimiter not followed by a newline; a
    second block, well formed, follows it.  The extractor does recognise a
    fence, from the opening of the second block, and parses [2], not the
    whole text.  So it does when the closing delimiter of the block on one
    line is followed by a newline, [2], a newline and three backticks: the
    closing delimiter is taken for an opening. *)
Lemma one_line_block_then_fenced_block :
  let text :=
    "```" ++ "json [1] " ++ "```" ++ nl ++ fence_json_open ++ "[2]" ++ fence_close in
  let glued := "```" ++ "json [1]" ++ "```" ++ nl ++ "[2]" ++ fence_close in
  starts_with nl "json [1] " = false
  /\ starts_with ("json" ++ nl) "json [1] " = false
  /\ jsonMatch text = Some "[2]"
  /\ jsonText text = "[2]"
  /\ jsonText text <> text
  /\ extract text = Normal [JNumber 2]
  /\ JSON_parse text = None
  /\ starts_with nl "json [1]" = false
  /\ starts_with ("json" ++ nl) "json [1]" = false
  /\ jsonText glued = "[2]"
  /\ jsonText glued <> glued
  /\ extract glued = Normal [JNumber 2].
Proof.
  repeat split; try (vm_compute; reflexivity); vm_compute; discriminate.
Qed.

Lemma ids_pairwise_distinct_run :
  exists batch w',
    articlesWithIds third_answers 0 two_records start = (Normal batch, w')
    /\ (forall i article,
          nth_error two_records i = Some article ->
          nth_error (map id_of batch) i =
            Some (Some (JNumber (inject_Z (Date_now third_answers (clock_reads start + i)
                                           + Z.of_nat i)))))
    /\ NoDup (map id_of batch).
Proof.
  apply (ids_pairwise_distinct third_answers two_records start).
  - repeat constructor.
  - intros i j Hij _. simpl. unfold tick. lia.
Defined.

(** C6.  The ids of a batch are not always pairwise distinct.  The model
    numbers its records itself, both with 7; the object literal spreads the
    fields of a record after the synthetic id, so each record keeps the id
    it brought, and the batch that the handler answers has the id 7
    twice. *)
Lemma own_ids_collide :
  exists batch w',
    generate_news numbered_by_model politics start = (Json 200 (JArray batch), w')
    /\ map id_of batch = [Some (JNumber 7); Some (JNumber 7)]
    /\ ~ NoDup (map id_of batch).
Proof.
  eexists _, _. split; [vm_compute; reflexivity|].
  split; [reflexivity|].
  intros H. inversion H as [|x l Hin _]. apply Hin. now left.
Qed.

(** So does a clock that is set back between two readings. *)
Lemma clock_set_back_collides :
  map id_of
    (match fst (articlesWithIds clock_set_back 0 two_records start) with
     | Normal batch => batch
     | Throw _ => []
     end)
  = [Some (JNumber 1000); Some (JNumber 1000)].
Proof. reflexivity. Qed.

Lemma cache_replace_then_read_run :
  let (answer, w') :=
    update_cache (Some (JObject [("articles", JArray five)])) start in
  answer = Json 200 (JObject
             [("success", JBool true);
              ("count", JNumber (inject_Z (Z.of_nat (List.length five))))])
  /\ count_of answer = Some (JNumber (inject_Z (Z.of_nat (List.length five))))
  /\ cachedArticles w' = JArray five
  /\ fst (get_articles w') = Json 200 (JArray five).
Proof.
  apply (proj1 (cache_replace_then_read
                  (Some (JObject [("articles", JArray five)])) start) five).
  reflexivity.
Defined.

(** Five records, then none: the second replacement empties the cache. *)
Lemma cache_replace_twice :
  let w1 := snd (update_cache (Some (JObject [("articles", JArray five)])) start) in
  let w2 := snd (update_cache (Some (JObject [("articles", JArray [])])) w1) in
  fst (get_articles w1) = Json 200 (JArray five)
  /\ fst (get_articles w2) = Json 200 (JArray []).
Proof. split; reflexivity. Qed.




(** The double nearest to 0.6 lies below three fifths, and its product with
    5 is rounded to 3: the draw chooses the fourth category. *)
Lemma draw_below_three_fifths :
  is_double (5404319552844595 # 2 ^ 53) = true
  /\ (5404319552844595 # 2 ^ 53) < (3 # 5)
  /\ multiply (5404319552844595 # 2 ^ 53) 5 == 3
  /\ pick_category (5404319552844595 # 2 ^ 53) = Some (JString "business").
Proof.
  repeat split; vm_compute; reflexivity.
Qed.

End Runs.

(* ================================================================== *)
(** * Further properties of the handlers *)

(** ** The loop, whatever the upstream API answers *)

Section LoopOutcome.
Context {rt : Runtime}.
Variable env : Env.
Variables key prompt : string.

Lemma try_models_run (modelList : list string) :
  forall w : World,
  let (answer, w') := try_models env key prompt modelList w in
  exists n,
    (n <= List.length modelList)%nat
    /\ fetched w' =
         (fetched w ++ map (request_for key prompt) (firstn n modelList))%list
    /\ attempted (console w') = (attempted (console w) ++ firstn n modelList)%list
    /\ cachedArticles w' = cachedArticles w
    /\ random_reads w' = random_reads w
    /\ ((answer = AggregateFailure
         /\ n = List.length modelList
         /\ failures (console w') = (failures (console w) + n)%nat
         /\ clock_reads w' = clock_reads w)
        \/ exists batch,
             answer = Json 200 (JArray batch)
             /\ (1 <= n)%nat
             /\ (failures (console w') + 1 = failures (console w) + n)%nat
             /\ clock_reads w' = (clock_reads w + List.length batch)%nat).
Proof.
  induction modelList as [|model rest IH]; intros w.
  - simpl. exists 0%nat. simpl. rewrite !app_nil_r.
    repeat split; auto.
  - simpl try_models.
    destruct (articles_of_response
                (fetch env (List.length (fetched w))
                   (request_for key prompt model))) as [articles|] eqn:A.
    + destruct (attempt_succeeds env key prompt model w articles A)
        as (w1 & batch & E & T & L & _).
      rewrite E. destruct T. exists 1%nat. simpl.
      repeat split; auto; try lia.
      right. exists batch. repeat split; try lia.
    + destruct (attempt_fails env key prompt model w A) as (w1 & E & T).
      rewrite E. destruct T. specialize (IH w1).
      destruct (try_models env key prompt rest w1) as [answer w'].
      destruct IH as (n & Hn & F & At & C & R & O).
      exists (S n). simpl.
      rewrite F, At, turn_fetched0, turn_attempted0, <- !app_assoc. simpl.
      repeat split; try congruence; try lia.
      destruct O as [(-> & -> & Fl & Cl) | (batch & -> & H1 & Fl & Cl)].
      * left. repeat split; lia.
      * right. exists batch. repeat split; lia.
Qed.


End LoopOutcome.

(** ** The two patterns *)

Section PatternFacts.
Context {rt : Runtime}.

Lemma cut_is_leftmost (needle s before after : string) :
  cut needle s = Some (before, after) ->
  forall x y, s = x ++ needle ++ y ->
              (String.length before <= String.length x)%nat.
Proof.
  revert before; induction s as [|c s IH]; intros before C x y E.
  - simpl in C. destruct (starts_with needle ""); [|discriminate].
    injection C as <- _. simpl. lia.
  - destruct (starts_with needle (String c s)) eqn:P.
    + rewrite cut_head in C by exact P. injection C as <- _. simpl. lia.
    + rewrite cut_step in C by exact P.
      destruct (cut needle s) as [[b0 a0]|] eqn:C0; [|discriminate].
      injection C as <- <-.
      destruct x as [|d x]; simpl in E.
      * rewrite E, starts_with_append in P. discriminate.
      * injection E as _ E. simpl. apply le_n_S. now apply (IH b0 eq_refl x y).
Qed.

Lemma cut_before_free (needle s before after : string) :
  needle <> "" ->
  cut needle s = Some (before, after) -> ~ occurs needle before.
Proof.
  intros Hne C (x & y & E).
  pose proof (cut_sound _ _ _ _ C) as Hs.
  assert (L : (String.length before <= String.length x)%nat).
  { apply (cut_is_leftmost _ _ _ _ C x (y ++ needle ++ after)).
    rewrite Hs, E. now rewrite !append_assoc. }
  rewrite E, !length_append in L.
  destruct needle; [congruence | simpl in L; lia].
Qed.

(** X2.  What the patterns capture.  The captured interior lies in the text
    between an opening (three backticks, json when the first pattern
    matches, a newline) and a closing (a newline, three backticks); the
    opening is the leftmost one of its kind in the text, the plain kind
    being used only when the json pattern does not match; and the interior
    holds no closing: of two blocks only the first is captured, up to its
    first closing. *)
Theorem jsonMatch_capture (generatedText interior : string) :
  jsonMatch generatedText = Some interior ->
  ~ occurs fence_close interior
  /\ occurs interior generatedText
  /\ exists before after opening,
       (opening = fence_json_open
        \/ (opening = fence_open
            /\ match_fence fence_json_open generatedText = None))
       /\ generatedText = before ++ opening ++ interior ++ fence_close ++ after
       /\ forall x y, generatedText = x ++ opening ++ y ->
                      (String.length before <= String.length x)%nat.
Proof.
  assert (K : forall opening,
             match_fence opening generatedText = Some interior ->
             ~ occurs fence_close interior
             /\ exists before after,
                  generatedText = before ++ opening ++ interior ++ fence_close ++ after
                  /\ forall x y, generatedText = x ++ opening ++ y ->
                                 (String.length before <= String.length x)%nat).
  { intros opening H. unfold match_fence in H.
    destruct (cut opening generatedText) as [[b a]|] eqn:C; [|discriminate].
    destruct (cut fence_close a) as [[i r]|] eqn:D; [|discriminate].
    injection H as ->. split.
    - apply (cut_before_free fence_close a interior r); [discriminate | exact D].
    - exists b, r. split.
      + apply cut_sound in C, D. now subst.
      + exact (cut_is_leftmost _ _ _ _ C). }
  unfold jsonMatch. intros H.
  destruct (match_fence fence_json_open generatedText) as [m|] eqn:J.
  - injection H as ->. destruct (K _ J) as (Hfree & b & r & E & Hleft).
    split; [exact Hfree|]. split.
    + exists (b ++ fence_json_open), (fence_close ++ r).
      rewrite E. now rewrite !append_assoc.
    + exists b, r, fence_json_open. split; [now left|]. now split.
  - destruct (K _ H) as (Hfree & b & r & E & Hleft).
    split; [exact Hfree|]. split.
    + exists (b ++ fence_open), (fence_close ++ r).
      rewrite E. now rewrite !append_assoc.
    + exists b, r, fence_open. split; [now right|]. now split.
Qed.

(** X3.  The second pattern.  When the text has no opening with json and a
    newline, the first block that opens with three backticks and a newline
    and closes with a newline and three backticks is used: if its interior
    is the JSON of an array, the extractor returns the records of that
    array. *)
Theorem extract_fenced_plain (before interior after : string) (articles : list JSON) :
  ~ occurs fence_json_open
      (before ++ fence_open ++ interior ++ fence_close ++ after) ->
  ~ occurs fence_open before ->
  ~ occurs fence_close interior ->
  JSON_parse interior = Some (JArray articles) ->
  extract (before ++ fence_open ++ interior ++ fence_close ++ after)
  = Normal articles.
Proof.
  intros Hj Hb Hi P. unfold extract, parse_articles, jsonText, jsonMatch.
  rewrite (match_fence_no_opening fence_json_open) by exact Hj.
  unfold match_fence.
  rewrite (cut_append fence_open) by (reflexivity || assumption).
  rewrite (cut_append fence_close) by (reflexivity || assumption).
  now rewrite P.
Qed.

End PatternFacts.

(** ** The handler of generate-news *)

Section HandlerFacts.
Context {rt : Runtime}.
Variable env : Env.

Lemma lookup_app (k : string) (l1 l2 : list (string * JSON)) :
  lookup k (l1 ++ l2)%list =
    match lookup k l2 with
    | Some v => Some v
    | None => lookup k l1
    end.
Proof.
  induction l1 as [|[k' v] l1 IH]; simpl.
  - now destruct (lookup k l2).
  - rewrite IH. destruct (lookup k l2); [reflexivity|].
    now destruct (lookup k l1).
Qed.

Lemma select_category_frame (category : JSValue) (w : World) :
  exists selected w0,
    select_category env category w = (Normal selected, w0)
    /\ cachedArticles w0 = cachedArticles w
    /\ fetched w0 = fetched w
    /\ console w0 = console w
    /\ clock_reads w0 = clock_reads w.
Proof.
  unfold select_category. destruct (is_string category "random").
  - eexists _, _. split; [reflexivity|]. simpl. auto.
  - exists category, w. repeat split; auto.
Qed.

Lemma key_missing_dec : key_missing env \/ exists key, GEMINI_API_KEY env = Some key /\ key <> "".
Proof.
  unfold key_missing.
  destruct (GEMINI_API_KEY env) as [key|]; [|left; left; reflexivity].
  destruct key as [|c key]; [left; right; reflexivity|].
  right. exists (String c key). split; [reflexivity | discriminate].
Qed.

Lemma generate_news_with_run (modelList : list string) (body : JSValue) (w : World) :
  let (answer, w') := generate_news_with env modelList body w in
  cachedArticles w' = cachedArticles w
  /\ ((key_missing env /\ answer = Json 503 not_configured /\ w' = w)
      \/ (~ key_missing env
          /\ ((exists e, answer = Uncaught e
                         /\ fetched w' = fetched w
                         /\ console w' = console w
                         /\ clock_reads w' = clock_reads w)
              \/ (answer = AggregateFailure
                  /\ List.length (fetched w') =
                       (List.length (fetched w) + List.length modelList)%nat)
              \/ (exists batch,
                     answer = Json 200 (JArray batch)
                     /\ (List.length (fetched w) < List.length (fetched w')
                         <= List.length (fetched w) + List.length modelList)%nat)))).
Proof.
  unfold generate_news_with.
  destruct key_missing_dec as [Hm | (key & Hk & Hne)].
  - destruct Hm as [Hm | Hm]; rewrite Hm; (split; [reflexivity|]);
      left; unfold key_missing; auto.
  - rewrite Hk. destruct key as [|c key]; [congruence|].
    assert (Hp : ~ key_missing env)
      by (unfold key_missing; rewrite Hk; intros [H | H]; discriminate H).
    destruct (category <- get_named body "category" ;;
              count <- get_named body "count" ;; Normal (category, count))
      as [[category count]|e].
    2: { split; [reflexivity|]. right. split; [exact Hp|]. left.
         exists e. auto. }
    unfold generate.
    destruct (select_category_frame category w) as (sel & w0 & E & C & F & L & K).
    rewrite E.
    destruct (build_prompt _ sel) as [prompt|e].
    2: { split; [exact C|]. right. split; [exact Hp|]. left. exists e. auto. }
    pose proof (try_models_run env (String c key) prompt modelList w0) as R.
    destruct (try_models env (String c key) prompt modelList w0) as [answer w'].
    destruct R as (n & Hn & Hf & _ & Hc & _ & O).
    split; [congruence|]. right. split; [exact Hp|]. right.
    assert (Hlen : List.length (fetched w') = (List.length (fetched w) + n)%nat).
    { rewrite Hf, F, length_app, length_map, length_firstn. lia. }
    destruct O as [(-> & -> & _) | (batch & -> & H1 & _)].
    + left. now split.
    + right. exists batch. split; [reflexivity | lia].
Qed.


(** X5.  The default of count.  A request whose body has no count is
    handled as the same request with the count 3, by the handler with the
    fallback loop and by its first revision alike. *)
Theorem count_defaults_to_three (props : list (string * JSON)) :
  lookup "count" props = None ->
  (forall modelList w,
      generate_news_with env modelList (Some (JObject props)) w =
      generate_news_with env modelList
        (Some (JObject (props ++ [("count", JNumber 3)])%list)) w)
  /\
  (forall wording w,
      generate_news_v1 env wording (Some (JObject props)) w =
      generate_news_v1 env wording
        (Some (JObject (props ++ [("count", JNumber 3)])%list)) w).
Proof.
  intros H.
  assert (Hc : lookup "category" (props ++ [("count", JNumber 3)])%list
               = lookup "category" props)
    by (rewrite lookup_app; reflexivity).
  assert (Hn : lookup "count" (props ++ [("count", JNumber 3)])%list
               = Some (JNumber 3))
    by (rewrite lookup_app; reflexivity).
  split.
  - intros modelList w. unfold generate_news_with.
    cbn [get_named bind]. now rewrite Hc, Hn, H.
  - intros wording w. unfold generate_news_v1.
    cbn [get_named bind]. now rewrite Hc, Hn, H.
Qed.

End HandlerFacts.

(** ** Records, cache and feed together *)

Section PipelineFacts.
Context {rt : Runtime}.

(** X6.  What numbering keeps.  The numbered record reads as the original
    on every field but id; its id is the one the original brought, if any,
    and the clock reading plus the position otherwise.  An element that is
    not an object, an array or a string (null, a number, a boolean) becomes a
    record with an id and nothing else. *)
Theorem with_id_fields (t : Z) (index : nat) (article : JSON) :
  (forall name, name <> "id" ->
      get_named (Some (with_id t index article)) name
      = Normal (lookup name (spread article)))
  /\ (forall props name, article = JObject props -> name <> "id" ->
        get_named (Some (with_id t index article)) name
        = get_named (Some article) name)
  /\ get_named (Some (with_id t index article)) "id"
     = Normal (match lookup "id" (spread article) with
               | Some own => Some own
               | None => Some (JNumber (inject_Z (t + Z.of_nat index)))
               end)
  /\ (spread article = [] ->
      with_id t index article
      = JObject [("id", JNumber (inject_Z (t + Z.of_nat index)))]).
Proof.
  assert (K : forall name, name <> "id" ->
            get_named (Some (with_id t index article)) name
            = Normal (lookup name (spread article))).
  { intros name Hn. unfold with_id. cbn [get_named lookup].
    destruct (lookup name (spread article)); [reflexivity|].
    apply String.eqb_neq in Hn. rewrite String.eqb_sym in Hn. now rewrite Hn. }
  split; [exact K|]. split; [|split].
  - intros props name -> Hn. now rewrite K.
  - unfold with_id. cbn [get_named lookup].
    now destruct (lookup "id" (spread article)).
  - intros H. unfold with_id. now rewrite H.
Qed.




(** X8.  The cache takes what it is given.  A false, a zero, an empty string
    and a null empty the cache like a missing batch; any other value,
    array or not, is stored as it is and is what the cache answers, its
    count being the length the value has, if it has one; and once a value
    that is not an array is stored, the feed throws. *)
Theorem update_cache_takes_anything (body : JSValue) (v : JSValue) (w : World) :
  get_named body "articles" = Normal v ->
  let (answer, w') := update_cache body w in
  (exists fields, answer = Json 200 (JObject (("success", JBool true) :: fields)))
  /\ (truthy v = false ->
      cachedArticles w' = JArray [] /\ count_of answer = Some (JNumber 0))
  /\ (forall j, v = Some j -> truthy v = true ->
        cachedArticles w' = j
        /\ count_of answer = js_length j
        /\ fst (get_articles w') = Json 200 j
        /\ (is_array j = false ->
            forall env baseUrl, rss env baseUrl w' = (Uncaught TypeError, w'))).
Proof.
  intros H. unfold update_cache. rewrite H.
  destruct v as [j|].
  - destruct (truthy (Some j)) eqn:T; cbn.
    + split; [eexists; reflexivity|]. split; [discriminate|].
      intros j' Hj _. injection Hj as <-.
      repeat split.
      * unfold count_of. cbn. destruct (js_length j); reflexivity.
      * intros Ha env baseUrl. unfold rss, rss_items. cbn.
        destruct j; try reflexivity. discriminate Ha.
    + split; [eexists; reflexivity|]. split; [auto|].
      intros j' _ Hf. discriminate Hf.
  - cbn. split; [eexists; reflexivity|]. split; [auto|].
    intros j' Hj. discriminate Hj.
Qed.

End PipelineFacts.

(** ** The feed *)

Section FeedOutcome.
Context {rt : Runtime}.

Lemma JSON_induction (P : JSON -> Prop) :
  P JNull ->
  (forall b, P (JBool b)) ->
  (forall x, P (JNumber x)) ->
  (forall s, P (JString s)) ->
  (forall items, Forall P items -> P (JArray items)) ->
  (forall props, Forall (fun kv => P (snd kv)) props -> P (JObject props)) ->
  forall v, P v.
Proof.
  intros Hnull Hbool Hnum Hstr Harr Hobj.
  fix IH 1. intros [| b | x | s | items | props].
  - exact Hnull.
  - apply Hbool.
  - apply Hnum.
  - apply Hstr.
  - apply Harr. induction items as [|x items IHitems]; constructor;
      [apply IH | exact IHitems].
  - apply Hobj. induction props as [|[k x] props IHprops]; constructor;
      [apply IH | exact IHprops].
Qed.

Lemma ToString_TypeError (v : JSON) :
  forall e, ToString v = Throw e -> e = TypeError.
Proof.
  induction v as [| b | x | s | items IH | props _] using JSON_induction;
    simpl; intros e.
  - discriminate.
  - destruct b; discriminate.
  - discriminate.
  - discriminate.
  - match goal with
    | |- context [bind ?c _] => destruct c as [parts|e0] eqn:R; cbn [bind]
    end; [discriminate|].
    intros H. injection H as <-. revert e0 R.
    induction IH as [|x items Hx _ IHl]; intros e0; [discriminate|].
    simpl.
    destruct (match x with JNull => Normal "" | _ => ToString x end)
      as [s0|e1] eqn:T; cbn [bind].
    + match goal with
      | |- context [bind ?c _] => destruct c as [ss|e2] eqn:R'; cbn [bind]
      end; [discriminate|].
      intros R. injection R as <-. now apply IHl.
    + intros R. injection R as <-.
      destruct x; try discriminate T; now apply Hx.
  - destruct (lookup "toString" props); [|discriminate].
    intros H. now injection H as <-.
Qed.

Lemma interpolate_TypeError (v : JSValue) (e : JSError) :
  interpolate v = Throw e -> e = TypeError.
Proof.
  destruct v as [j|]; simpl; [apply ToString_TypeError | discriminate].
Qed.

Lemma render_item_TypeError (baseUrl : string) (a : JSON) (e : JSError) :
  render_item baseUrl a = Throw e -> e = TypeError.
Proof.
  unfold render_item, field.
  destruct (get_named (Some a) "headline") as [v1|e1] eqn:G1.
  2: { destruct a; try discriminate G1. cbn [bind].
       intros H. injection H as <-. now injection G1 as <-. }
  assert (G : forall name, exists v, get_named (Some a) name = Normal v).
  { intros name. destruct a; try discriminate G1; eexists; reflexivity. }
  destruct (G "summary") as (v2 & ->). destruct (G "author") as (v3 & ->).
  destruct (G "category") as (v4 & ->). destruct (G "date") as (v5 & ->).
  destruct (G "id") as (v6 & ->). cbn [bind].
  destruct (interpolate v1) as [s1|x] eqn:I1; cbn [bind];
    [|intros H; injection H as <-; now apply (interpolate_TypeError v1)].
  destruct (interpolate v2) as [s2|x] eqn:I2; cbn [bind];
    [|intros H; injection H as <-; now apply (interpolate_TypeError v2)].
  destruct (interpolate v3) as [s3|x] eqn:I3; cbn [bind];
    [|intros H; injection H as <-; now apply (interpolate_TypeError v3)].
  destruct (interpolate v4) as [s4|x] eqn:I4; cbn [bind];
    [|intros H; injection H as <-; now apply (interpolate_TypeError v4)].
  destruct (date_utc v5) as [s5|x] eqn:I5; cbn [bind].
  2: { intros H; injection H as <-. unfold date_utc in I5.
       destruct v5 as [[| b | y | s | l | props]|]; try discriminate I5.
       - destruct (ToString (JArray l)) eqn:T; [discriminate I5|].
         cbn [bind] in I5. injection I5 as <-. now apply ToString_TypeError in T.
       - destruct (ToString (JObject props)) eqn:T; [discriminate I5|].
         cbn [bind] in I5. injection I5 as <-. now apply ToString_TypeError in T. }
  destruct (interpolate v6) as [s6|x] eqn:I6; cbn [bind];
    [discriminate|intros H; injection H as <-; now apply (interpolate_TypeError v6)].
Qed.

Lemma map_items_throws (baseUrl : string) (articles : list JSON) :
  (exists e, map_items baseUrl articles = Throw e) <->
  exists a, In a articles /\ render_item baseUrl a = Throw TypeError.
Proof.
  induction articles as [|a articles IH]; simpl.
  - split; [intros [e H]; discriminate H | intros (a & [] & _)].
  - destruct (render_item baseUrl a) as [item|e0] eqn:R; cbn [bind].
    + destruct (map_items baseUrl articles) as [items|e1] eqn:M; cbn [bind].
      * split; [intros [e H]; discriminate H|].
        intros (b & [<- | Hb] & Rb); [congruence|].
        destruct (proj2 IH (ex_intro _ b (conj Hb Rb))) as [e H]. discriminate H.
      * split; [|intros _; now exists e1].
        intros _. destruct (proj1 IH (ex_intro _ e1 eq_refl)) as (b & Hb & Rb).
        exists b. split; [now right | exact Rb].
    + split; [|intros _; now exists e0].
      intros _. exists a. split; [now left|].
      now rewrite (render_item_TypeError _ _ _ R) in R.
Qed.

(** X9.  The answers of the feed.  The feed leaves the cache and the records
    of the process as they are.  It answers a document and reads the clock
    once, or it throws a TypeError and reads nothing; and it throws exactly
    when the cache holds something that is not an array, or one of the first
    20 cached articles cannot be rendered, as a null cannot; what lies
    beyond the 20th article is never looked at. *)
Theorem rss_answers (env : Env) (baseUrl : string) (w : World) :
  let (answer, w') := rss env baseUrl w in
  cachedArticles w' = cachedArticles w
  /\ fetched w' = fetched w
  /\ console w' = console w
  /\ ((exists feed, answer = Rss feed /\ clock_reads w' = S (clock_reads w))
      \/ (answer = Uncaught TypeError /\ w' = w))
  /\ (answer = Uncaught TypeError <->
      (is_array (cachedArticles w) = false
       \/ exists batch a,
            cachedArticles w = JArray batch
            /\ In a (firstn 20 batch)
            /\ render_item baseUrl a = Throw TypeError))
  /\ render_item baseUrl JNull = Throw TypeError.
Proof.
  unfold rss, rss_items.
  destruct (cachedArticles w) as [| b | x | s | batch | props] eqn:C;
    try (cbn; repeat split; auto; try (now intros _; left); now right).
  destruct (map_items baseUrl (firstn 20 batch)) as [items|e] eqn:M.
  - cbn. repeat split; auto.
    + left. eexists. split; reflexivity.
    + intros H. discriminate H.
    + intros [H | (batch' & a & Hb & Ha & Hr)]; [discriminate H|].
      injection Hb as <-.
      destruct (proj2 (map_items_throws baseUrl (firstn 20 batch))
                  (ex_intro _ a (conj Ha Hr))) as [e H].
      congruence.
  - destruct (proj1 (map_items_throws baseUrl (firstn 20 batch))
                (ex_intro _ e M)) as (a & Ha & Hr).
    assert (e = TypeError) as ->.
    { clear Ha Hr a. revert e M.
      induction (firstn 20 batch) as [|a l IH]; intros e M; [discriminate M|].
      simpl in M. destruct (render_item baseUrl a) eqn:R; cbn [bind] in M.
      - destruct (map_items baseUrl l) eqn:M'; cbn [bind] in M; [discriminate M|].
        injection M as <-. now apply IH.
      - injection M as <-. now apply render_item_TypeError in R. }
    repeat split; auto.
    intros _. right. now exists batch, a.
Qed.

(** X10.  The feed escapes nothing.  For a record whose headline, summary,
    author, category and date are strings, the item is the template with
    those strings (and the text of the id) put in as they are, whatever
    characters they hold: the title element is the headline between the
    marks of a CDATA section, the description the summary likewise, the
    author, category, pubDate and guid elements hold the author, the
    category, the date as the engine writes it, and the address with the
    id; and the item has as many opening tags of an item as the template
    has, one, and the texts bring.  A field that the record lacks is written
    undefined. *)
Theorem render_item_verbatim (baseUrl : string) (props : list (string * JSON))
    (headline summary author category date : string) :
  lookup "headline" props = Some (JString headline) ->
  lookup "summary" props = Some (JString summary) ->
  lookup "author" props = Some (JString author) ->
  lookup "category" props = Some (JString category) ->
  lookup "date" props = Some (JString date) ->
  (forall id, interpolate (lookup "id" props) = Normal id ->
     exists item,
       render_item baseUrl (JObject props) = Normal item
       /\ item = item_text headline summary author category
                   (Date_toUTCString (Some (JString date))) baseUrl id
       /\ occurs ("<title><![CDATA[" ++ headline ++ "]]></title>") item
       /\ occurs ("<description><![CDATA[" ++ summary ++ "]]></description>") item
       /\ occurs ("<author>" ++ author ++ "</author>") item
       /\ occurs ("<category>" ++ category ++ "</category>") item
       /\ occurs ("<pubDate>" ++ Date_toUTCString (Some (JString date))
                  ++ "</pubDate>") item
       /\ occurs ("<guid isPermaLink=" ++ q ++ "false" ++ q ++ ">"
                  ++ baseUrl ++ "/#article-" ++ id ++ "</guid>") item
       /\ occurrences item_tag item
          = (1 + occurrences item_tag headline + occurrences item_tag summary
             + occurrences item_tag author + occurrences item_tag category
             + occurrences item_tag (Date_toUTCString (Some (JString date)))
             + occurrences item_tag baseUrl + occurrences item_tag id)%nat)
  /\ (exists item,
        render_item baseUrl (JObject []) = Normal item
        /\ occurs "<title><![CDATA[undefined]]></title>" item
        /\ occurs "<description><![CDATA[undefined]]></description>" item
        /\ occurs "<author>undefined</author>" item
        /\ occurs "<category>undefined</category>" item
        /\ occurs ("<pubDate>" ++ Date_toUTCString undefined ++ "</pubDate>") item
        /\ occurs ("<guid isPermaLink=" ++ q ++ "false" ++ q ++ ">"
                   ++ baseUrl ++ "/#article-" ++ "undefined" ++ "</guid>") item).
Proof.
  intros H1 H2 H3 H4 H5. split.
  - intros id H6. eexists. split; [|split; [reflexivity|]].
    + unfold render_item, field. cbn [get_named bind].
      rewrite H1, H2, H3, H4, H5, H6. reflexivity.
    + pose proof (item_text_pieces headline summary author category
                    (Date_toUTCString (Some (JString date))) baseUrl id) as P.
      cbv zeta in P. destruct P as (P1 & P2 & P3 & P4 & P5 & P6).
      repeat split; try assumption. apply occurrences_item_text.
  - eexists. split; [reflexivity|].
    exact (item_text_pieces "undefined" "undefined" "undefined" "undefined"
             (Date_toUTCString undefined) baseUrl "undefined").
Qed.

End FeedOutcome.

(** ** The calls to the upstream API *)

Section CallFacts.
Context {rt : Runtime}.
Variable env : Env.

Lemma append_cancel_r (a b s : string) : a ++ s = b ++ s -> a = b.
Proof.
  revert b; induction a as [|c a IH]; intros b H.
  - destruct b as [|d b]; [reflexivity|].
    apply (f_equal String.length) in H. simpl in H.
    rewrite length_append in H. lia.
  - destruct b as [|d b].
    + apply (f_equal String.length) in H. simpl in H.
      rewrite length_append in H. lia.
    + simpl in H. injection H as -> H. f_equal. now apply IH.
Qed.

Lemma request_for_model (key prompt m1 m2 : string) :
  url (request_for key prompt m1) = url (request_for key prompt m2) -> m1 = m2.
Proof.
  unfold request_for. cbn [url]. intros H.
  apply append_cancel in H. now apply append_cancel_r in H.
Qed.

(** X11.  No endpoint is called twice.  Each model has an address of its
    own; in a run of the loop over a list without repetition, started
    before any call was made, the addresses called are pairwise distinct,
    whatever the upstream API answers.  The lists of both revisions of the
    server have no repetition. *)
Theorem no_endpoint_twice (key prompt : string) (modelList : list string)
    (w : World) :
  NoDup modelList ->
  fetched w = [] ->
  (let (answer, w') := try_models env key prompt modelList w in
   NoDup (map url (fetched w')))
  /\ NoDup models /\ NoDup models_1_5.
Proof.
  intros Hd Hw. split.
  - pose proof (try_models_run env key prompt modelList w) as R.
    destruct (try_models env key prompt modelList w) as [answer w'].
    destruct R as (n & _ & F & _). rewrite F, Hw. cbn [app].
    rewrite map_map.
    apply NoDup_map_NoDup_ForallPairs.
    + intros m1 m2 _ _. apply request_for_model.
    + rewrite <- (firstn_skipn n modelList) in Hd.
      now apply NoDup_app_remove_r in Hd.
  - split; unfold models, models_1_5;
      repeat (constructor; [simpl; intuition discriminate|]); constructor.
Qed.

Lemma single_attempt_run (wording : option FetchResponse -> string)
    (key prompt : string) (w : World) :
  let (answer, w') := single_attempt env wording key prompt w in
  fetched w' = (fetched w ++ [request_v1 key prompt])%list
  /\ console w' = console w
  /\ cachedArticles w' = cachedArticles w
  /\ match articles_of_response
             (fetch env (List.length (fetched w)) (request_v1 key prompt)) with
     | Some articles =>
         exists batch,
           answer = Json 200 (JArray batch)
           /\ List.length batch = List.length articles
           /\ forall i article,
                nth_error articles i = Some article ->
                nth_error batch i =
                  Some (with_id (Date_now env (clock_reads w + i)) i article)
     | None =>
         exists details,
           answer = failed_with details /\ clock_reads w' = clock_reads w
     end.
Proof.
  unfold single_attempt, do_fetch, articles_of_response.
  destruct (fetch env _ _) as [[o j]|]; cbn.
  2: { repeat split. eexists; split; reflexivity. }
  destruct j as [data|]; cbn.
  2: { repeat split. destruct o; eexists; split; reflexivity. }
  destruct o; cbn.
  - destruct (generated_text data) as [t|e]; cbn.
    2: { repeat split. eexists; split; reflexivity. }
    destruct (extract t) as [articles|e]; cbn.
    2: { repeat split. eexists; split; reflexivity. }
    match goal with
    | |- context [articlesWithIds env 0 articles ?w0] =>
        destruct (articlesWithIds_spec env articles 0 w0) as (batch & E & L & N);
        rewrite E
    end.
    cbn in *. repeat split. exists batch. repeat split; assumption.
  - destruct (error_reason data); cbn; repeat split; eexists; split; reflexivity.
Qed.



End CallFacts.

(** ** The console *)

Lemma failed_models_app (l1 l2 : list LogLine) :
  failed_models (l1 ++ l2)%list = (failed_models l1 ++ failed_models l2)%list.
Proof.
  induction l1 as [|x l1 IH]; simpl; [reflexivity|].
  destruct x; simpl; now rewrite IH.
Qed.

Section ConsoleFacts.
Context {rt : Runtime}.
Variable env : Env.
Variables key prompt : string.

Lemma attempt_names (model : string) (w : World) :
  match articles_of_response
          (fetch env (List.length (fetched w)) (request_for key prompt model)) with
  | None =>
      exists w',
        attempt env key prompt model w = (Continue, w')
        /\ failed_models (console w') = (failed_models (console w) ++ [model])%list
  | Some _ =>
      exists w' body,
        attempt env key prompt model w = (Return body, w')
        /\ console w' = (console w ++ [Trying model; Success model])%list
  end.
Proof.
  unfold attempt, try_model, bindM, say, do_fetch, lift, ret, articles_of_response.
  destruct (fetch env _ _) as [[o j]|]; simpl.
  2: { eexists; split; [reflexivity|]. simpl.
       now rewrite !failed_models_app, <- app_assoc. }
  destruct j as [data|]; simpl.
  2: { destruct o; eexists; (split; [reflexivity|]); simpl;
         now rewrite !failed_models_app, <- app_assoc. }
  destruct o; simpl.
  - destruct (generated_text data) as [t|e]; simpl.
    2: { eexists; split; [reflexivity|]. simpl.
         now rewrite !failed_models_app, <- !app_assoc. }
    destruct (extract t) as [articles|e]; simpl.
    2: { eexists; split; [reflexivity|]. simpl.
         now rewrite !failed_models_app, <- !app_assoc. }
    match goal with
    | |- context [articlesWithIds env 0 articles ?w0] =>
        destruct (articlesWithIds_spec env articles 0 w0) as (batch & E & _);
        rewrite E
    end.
    simpl. eexists _, _. split; [reflexivity|]. simpl.
    now rewrite <- app_assoc.
  - destruct (error_message data) as [m|e]; simpl;
      eexists; (split; [reflexivity|]); simpl;
      now rewrite !failed_models_app, <- app_assoc.
Qed.

(** X14.  No failure goes unnamed.  Whatever the upstream API answers, the
    failure lines that a run of the loop writes name the models that
    failed, one line per failed attempt and in the order of the list: the
    whole list when the answer is the aggregate failure, the models before
    the answering one when it is a 200; the last two lines are then the
    Trying and the Success of the answering model. *)
Theorem failures_are_named (modelList : list string) :
  forall w : World,
  let (answer, w') := try_models env key prompt modelList w in
  exists k,
    failed_models (console w') =
      (failed_models (console w) ++ firstn k modelList)%list
    /\ ((answer = AggregateFailure /\ k = List.length modelList)
        \/ exists batch model log,
             answer = Json 200 (JArray batch)
             /\ nth_error modelList k = Some model
             /\ console w' = (log ++ [Trying model; Success model])%list).
Proof.
  induction modelList as [|model rest IH]; intros w.
  - exists 0%nat. simpl. rewrite app_nil_r. split; [reflexivity|]. now left.
  - simpl try_models.
    pose proof (attempt_names model w) as A.
    destruct (articles_of_response
                (fetch env (List.length (fetched w))
                   (request_for key prompt model))) as [articles|] eqn:R.
    + destruct (attempt_succeeds env key prompt model w articles R)
        as (w1 & batch & E & _).
      destruct A as (w1' & body & E' & C).
      rewrite E in E'. injection E' as <- <-. rewrite E.
      exists 0%nat. simpl. rewrite C, failed_models_app. simpl.
      split; [reflexivity|]. right. now exists batch, model, (console w).
    + destruct A as (w1 & E & F). rewrite E. specialize (IH w1).
      destruct (try_models env key prompt rest w1) as [answer w'].
      destruct IH as (k & Hk & O). exists (S k). simpl.
      rewrite Hk, F, <- app_assoc. split; [reflexivity|].
      destruct O as [(-> & ->) | (batch & m & log & -> & Hm & Hc)].
      * now left.
      * right. now exists batch, m, log.
Qed.

(** X15.  The two revisions agree on success.  When the upstream API gives
    the address of a model the answer that it gives the address of the
    first revision, a loop over that one model answers 200 with a batch
    exactly when the first revision does, and the aggregate failure exactly
    when the first revision answers its own 500. *)
Theorem revisions_agree (wording : option FetchResponse -> string)
    (key1 prompt1 model : string) (w : World) :
  fetch env (List.length (fetched w)) (request_for key prompt model)
    = fetch env (List.length (fetched w)) (request_v1 key1 prompt1) ->
  (forall batch,
      fst (try_models env key prompt [model] w) = Json 200 (JArray batch)
      <-> fst (single_attempt env wording key1 prompt1 w) = Json 200 (JArray batch))
  /\ (fst (try_models env key prompt [model] w) = AggregateFailure
      <-> exists details,
            fst (single_attempt env wording key1 prompt1 w) = failed_with details).
Proof.
  intros F.
  pose proof (single_attempt_run env wording key1 prompt1 w) as S1.
  destruct (single_attempt env wording key1 prompt1 w) as [a1 w1].
  destruct S1 as (_ & _ & _ & S1). rewrite <- F in S1.
  simpl try_models. cbn [fst].
  destruct (articles_of_response
              (fetch env (List.length (fetched w))
                 (request_for key prompt model))) as [articles|] eqn:R.
  - destruct (attempt_succeeds env key prompt model w articles R)
      as (w2 & batch2 & E & _ & L2 & N2).
    destruct S1 as (batch1 & -> & L1 & N1). rewrite E. cbn [fst].
    assert (batch1 = batch2) as ->.
    { apply nth_error_ext. intros i.
      destruct (nth_error articles i) as [a|] eqn:Ha.
      - now rewrite (N1 i a Ha), (N2 i a Ha).
      - apply nth_error_None in Ha.
        rewrite (proj2 (nth_error_None batch1 i)) by lia.
        now rewrite (proj2 (nth_error_None batch2 i)) by lia. }
    split.
    + intros batch. split; intros H; exact H.
    + split; [intros H; discriminate H | intros [d H]; discriminate H].
  - destruct (attempt_fails env key prompt model w R) as (w2 & E & _).
    destruct S1 as (details & -> & _). rewrite E. cbn [fst].
    split.
    + intros batch. split; intros H; discriminate H.
    + split; [intros _; now exists details | reflexivity].
Qed.

End ConsoleFacts.

(** ** The first revision of the handler *)

Section FirstRevision.
Context {rt : Runtime}.
Variable env : Env.

(** X16.  The answers of the first revision.  Without a usable key it
    answers the 503 and nothing else happens.  With a key it either throws
    before any call, or makes exactly one call and answers 200 with an
    array or its own 500; it never answers the aggregate failure of the
    later revision, and never writes the cache. *)
Theorem generate_news_v1_answers (wording : option FetchResponse -> string)
    (body : JSValue) (w : World) :
  let (answer, w') := generate_news_v1 env wording body w in
  cachedArticles w' = cachedArticles w
  /\ answer <> AggregateFailure
  /\ ((key_missing env /\ answer = Json 503 not_configured /\ w' = w)
      \/ (~ key_missing env
          /\ ((exists e, answer = Uncaught e /\ fetched w' = fetched w)
              \/ (List.length (fetched w') = S (List.length (fetched w))
                  /\ ((exists batch, answer = Json 200 (JArray batch))
                      \/ exists details, answer = failed_with details))))).
Proof.
  unfold generate_news_v1.
  destruct (key_missing_dec env) as [Hm | (key & Hk & Hne)].
  - destruct Hm as [Hm | Hm]; rewrite Hm;
      (split; [reflexivity|]); (split; [discriminate|]);
      left; unfold key_missing; auto.
  - rewrite Hk. destruct key as [|c key]; [congruence|].
    assert (Hp : ~ key_missing env)
      by (unfold key_missing; rewrite Hk; intros [H | H]; discriminate H).
    destruct (category <- get_named body "category" ;;
              count <- get_named body "count" ;; Normal (category, count))
      as [[category count]|e].
    2: { split; [reflexivity|]. split; [discriminate|].
         right. split; [exact Hp|]. left. exists e. auto. }
    destruct (select_category_frame env category w) as (sel & w0 & E & C & F & _).
    rewrite E.
    destruct (build_prompt _ sel) as [prompt|e].
    2: { split; [exact C|]. split; [discriminate|].
         right. split; [exact Hp|]. left. exists e. auto. }
    pose proof (single_attempt_run env wording (String c key) prompt w0) as R.
    destruct (single_attempt env wording (String c key) prompt w0) as [answer w'].
    destruct R as (Hf & _ & Hc & O).
    assert (Hlen : List.length (fetched w') = S (List.length (fetched w)))
      by (rewrite Hf, F, length_app; simpl; lia).
    destruct (articles_of_response _) as [articles|].
    + destruct O as (batch & -> & _).
      split; [congruence|]. split; [discriminate|].
      right. split; [exact Hp|]. right. split; [exact Hlen|]. left. now exists batch.
    + destruct O as (details & -> & _).
      split; [congruence|]. split; [discriminate|].
      right. split; [exact Hp|]. right. split; [exact Hlen|]. right. now exists details.
Qed.

End FirstRevision.

(** ** The cache over a sequence of requests *)

Section TraceFacts.
Context {rt : Runtime}.
Variable env : Env.

Lemma rss_keeps_cache (baseUrl : string) (w : World) :
  cachedArticles (snd (rss env baseUrl w)) = cachedArticles w.
Proof.
  unfold rss. destruct (rss_items baseUrl (cachedArticles w)); reflexivity.
Qed.

Lemma serve_keeps_cache (request : HttpRequest) (w : World) :
  is_update request = false ->
  cachedArticles (snd (serve env request w)) = cachedArticles w.
Proof.
  destruct request as [baseUrl | | body | body]; intros H; simpl.
  - apply rss_keeps_cache.
  - reflexivity.
  - discriminate H.
  - pose proof (generate_news_with_run env models body w) as R.
    unfold generate_news.
    destruct (generate_news_with env models body w) as [answer w'].
    now destruct R as [R _].
Qed.

Lemma serve_all_keeps_cache (requests : list HttpRequest) :
  forall w,
  forallb (fun r => negb (is_update r)) requests = true ->
  cachedArticles (serve_all env requests w) = cachedArticles w.
Proof.
  induction requests as [|r requests IH]; intros w H; [reflexivity|].
  simpl in H. apply andb_true_iff in H as [Hr H].
  simpl. rewrite IH by exact H.
  apply serve_keeps_cache. now apply negb_true_iff in Hr.
Qed.

Lemma serve_all_app (l1 l2 : list HttpRequest) (w : World) :
  serve_all env (l1 ++ l2)%list w = serve_all env l2 (serve_all env l1 w).
Proof.
  revert w; induction l1 as [|r l1 IH]; intros w; [reflexivity|].
  simpl. apply IH.
Qed.

(** X17.  A request without articles.  When the body of a request to
    update-cache is an object without articles, or is no object at all (an
    array, a string, a number, a boolean), the cache is emptied and the
    count is 0; when there is no body, or a null, the handler throws a
    TypeError and the cache stays. *)
Theorem update_cache_without_articles (w : World) :
  (forall j,
      j <> JNull ->
      (forall props, j = JObject props -> lookup "articles" props = None) ->
      let (answer, w') := update_cache (Some j) w in
      cachedArticles w' = JArray [] /\ count_of answer = Some (JNumber 0))
  /\ update_cache None w = (Uncaught TypeError, w)
  /\ update_cache (Some JNull) w = (Uncaught TypeError, w).
Proof.
  split; [|split; reflexivity].
  intros j Hn Ho. unfold update_cache.
  destruct j as [| b | x | s | l | props]; try (cbn; now split).
  cbn [get_named]. rewrite (Ho props eq_refl). cbn. now split.
Qed.

Lemma serve_unaccepted_keeps_cache (request : HttpRequest) (w : World) :
  accepted_update request = false ->
  cachedArticles (snd (serve env request w)) = cachedArticles w.
Proof.
  destruct (is_update request) eqn:U; [|intros _; now apply serve_keeps_cache].
  destruct request as [baseUrl | | body | body]; try discriminate U.
  cbn [accepted_update serve]. unfold update_cache.
  destruct (get_named body "articles"); [discriminate | reflexivity].
Qed.

Lemma serve_all_unaccepted (requests : list HttpRequest) :
  forall w,
  forallb (fun r => negb (accepted_update r)) requests = true ->
  cachedArticles (serve_all env requests w) = cachedArticles w.
Proof.
  induction requests as [|r requests IH]; intros w H; [reflexivity|].
  simpl in H. apply andb_true_iff in H as [Hr H].
  simpl. rewrite IH by exact H.
  apply serve_unaccepted_keeps_cache. now apply negb_true_iff in Hr.
Qed.

(** X18.  The last replacement decides.  After any sequence of requests,
    the cache holds what the last request to update-cache that was
    accepted put there (the value it sent, or the empty array for a value
    that is false, zero, empty, null or missing), whatever requests came
    before it, and whatever requests for the feed, for the articles or for
    news, and whatever rejected requests to update-cache (those without a
    body, or with a null), came after it; with no accepted request to
    update-cache at all the cache stays as it was. *)
Theorem last_update_decides (before after : list HttpRequest) (body v : JSValue)
    (w : World) :
  get_named body "articles" = Normal v ->
  forallb (fun r => negb (accepted_update r)) after = true ->
  cachedArticles
    (serve_all env (before ++ PostUpdateCache body :: after)%list w)
  = match v with
    | Some j => if truthy v then j else JArray []
    | None => JArray []
    end
  /\ cachedArticles (serve_all env after w) = cachedArticles w.
Proof.
  intros Hv Ha. split; [|now apply serve_all_unaccepted].
  rewrite serve_all_app. simpl serve_all.
  rewrite serve_all_unaccepted by exact Ha.
  unfold update_cache. rewrite Hv. reflexivity.
Qed.

(** X19.  A cache of arrays.  As long as every request to update-cache
    sends an array, or a value that empties the cache, the cache holds an
    array after any sequence of requests, from the start of the process
    on. *)
Theorem cache_stays_array (requests : list HttpRequest) :
  forall w,
  is_array (cachedArticles w) = true ->
  forallb sends_array requests = true ->
  is_array (cachedArticles (serve_all env requests w)) = true.
Proof.
  induction requests as [|r requests IH]; intros w Hw H; [exact Hw|].
  simpl in H. apply andb_true_iff in H as [Hr H].
  simpl. apply IH; [|exact H].
  destruct (is_update r) eqn:U.
  - destruct r as [| | body |]; try discriminate U.
    cbn [sends_array] in Hr. cbn [serve]. unfold update_cache.
    destruct (get_named body "articles") as [[j|]|e];
      [|reflexivity|exact Hw].
    destruct (truthy (Some j)) eqn:T; [|reflexivity].
    cbn [negb] in Hr. rewrite orb_false_r in Hr. exact Hr.
  - now rewrite serve_keeps_cache.
Qed.

End TraceFacts.

(** ** The further properties on sample runs *)

Module MoreRuns.
Import Sample Cases.

Lemma jsonMatch_capture_run :
  ~ occurs fence_close "[1]"
  /\ occurs "[1]" two_blocks
  /\ exists before after opening,
       (opening = fence_json_open
        \/ (opening = fence_open
            /\ match_fence fence_json_open two_blocks = None))
       /\ two_blocks = before ++ opening ++ "[1]" ++ fence_close ++ after
       /\ forall x y, two_blocks = x ++ opening ++ y ->
                      (String.length before <= String.length x)%nat.
Proof.
  apply (jsonMatch_capture two_blocks "[1]"). vm_compute. reflexivity.
Defined.

Lemma extract_fenced_plain_run :
  extract (("First:" ++ nl) ++ fence_open ++ "[1]" ++ fence_close
           ++ (nl ++ "Second:" ++ nl ++ fence_open ++ "[2]" ++ fence_close))
  = Normal [JNumber 1].
Proof.
  apply extract_fenced_plain.
  - apply Runs.not_in. vm_compute. reflexivity.
  - apply Runs.not_in. vm_compute. reflexivity.
  - apply Runs.not_in. vm_compute. reflexivity.
  - vm_compute. reflexivity.
Defined.

Lemma count_defaults_to_three_run :
  generate_news_with third_answers models (Some (JObject only_category)) start
  = generate_news_with third_answers models
      (Some (JObject (only_category ++ [("count", JNumber 3)])%list)) start.
Proof.
  apply (proj1 (count_defaults_to_three third_answers only_category eq_refl)).
Defined.

Lemma with_id_fields_run :
  get_named (Some (with_id 1760832000000 1 (JObject full_record))) "headline"
  = get_named (Some (JObject full_record)) "headline".
Proof.
  apply (proj1 (proj2 (with_id_fields 1760832000000 1 (JObject full_record)))
           full_record "headline").
  - reflexivity.
  - discriminate.
Defined.


Lemma update_cache_takes_anything_run :
  let (answer, w') :=
    update_cache (Some (JObject [("articles", JString "abc")])) start in
  (exists fields, answer = Json 200 (JObject (("success", JBool true) :: fields)))
  /\ (truthy (Some (JString "abc")) = false ->
      cachedArticles w' = JArray [] /\ count_of answer = Some (JNumber 0))
  /\ (forall j, Some (JString "abc") = Some j ->
        truthy (Some (JString "abc")) = true ->
        cachedArticles w' = j
        /\ count_of answer = js_length j
        /\ fst (get_articles w') = Json 200 j
        /\ (is_array j = false ->
            forall env baseUrl, rss env baseUrl w' = (Uncaught TypeError, w'))).
Proof.
  apply (update_cache_takes_anything
           (Some (JObject [("articles", JString "abc")]))
           (Some (JString "abc")) start).
  reflexivity.
Defined.

Lemma rss_answers_run :
  let (answer, w') := rss all_down "http://localhost:3000" with_null in
  cachedArticles w' = cachedArticles with_null
  /\ fetched w' = fetched with_null
  /\ console w' = console with_null
  /\ ((exists feed, answer = Rss feed /\ clock_reads w' = S (clock_reads with_null))
      \/ (answer = Uncaught TypeError /\ w' = with_null))
  /\ (answer = Uncaught TypeError <->
      (is_array (cachedArticles with_null) = false
       \/ exists batch a,
            cachedArticles with_null = JArray batch
            /\ In a (firstn 20 batch)
            /\ render_item "http://localhost:3000" a = Throw TypeError))
  /\ render_item "http://localhost:3000" JNull = Throw TypeError.
Proof. exact (rss_answers all_down "http://localhost:3000" with_null). Defined.

Lemma render_item_verbatim_run :
  exists item,
    render_item "http://localhost:3000" (JObject full_record) = Normal item
    /\ occurs ("<title><![CDATA[" ++ "Umpire <b>retires</b> ]]> to Goa & beyond"
               ++ "]]></title>") item
    /\ occurs ("<author>" ++ "R. Iyer" ++ "</author>") item
    /\ occurs ("<guid isPermaLink=" ++ q ++ "false" ++ q ++ ">"
               ++ "http://localhost:3000" ++ "/#article-" ++ "7" ++ "</guid>") item
    /\ occurrences item_tag item = 1%nat.
Proof.
  destruct (proj1 (render_item_verbatim "http://localhost:3000" full_record
                     "Umpire <b>retires</b> ]]> to Goa & beyond"
                     "He took the bails with him." "R. Iyer" "cricket"
                     "Oct 19, 2025" eq_refl eq_refl eq_refl eq_refl eq_refl)
              "7")
    as (item & R & E & T & _ & A & _ & _ & G & C).
  - vm_compute. reflexivity.
  - exists item. repeat split; assumption.
Defined.

Lemma no_endpoint_twice_run :
  (let (answer, w') :=
     try_models third_answers "secret" sample_prompt models start in
   NoDup (map url (fetched w')))
  /\ NoDup models /\ NoDup models_1_5.
Proof.
  apply (no_endpoint_twice third_answers "secret" sample_prompt models start).
  - unfold models.
    repeat (constructor; [simpl; intuition discriminate|]). constructor.
  - reflexivity.
Defined.


Lemma revisions_agree_run :
  (forall batch,
      fst (try_models third_answers "secret" sample_prompt ["gemini-pro"]
             after_numbering)
        = Json 200 (JArray batch)
      <-> fst (single_attempt third_answers wording "secret" sample_prompt
                 after_numbering)
          = Json 200 (JArray batch))
  /\ (fst (try_models third_answers "secret" sample_prompt ["gemini-pro"]
             after_numbering) = AggregateFailure
      <-> exists details,
            fst (single_attempt third_answers wording "secret" sample_prompt
                   after_numbering) = failed_with details).
Proof.
  apply (revisions_agree third_answers "secret" sample_prompt wording
           "secret" sample_prompt "gemini-pro" after_numbering).
  reflexivity.
Defined.

Lemma update_cache_without_articles_run :
  let (answer, w') := update_cache (Some (JArray two_records)) with_null in
  cachedArticles w' = JArray [] /\ count_of answer = Some (JNumber 0).
Proof.
  apply (proj1 (update_cache_without_articles with_null) (JArray two_records)).
  - discriminate.
  - intros props H. discriminate H.
Defined.

Lemma last_update_decides_run :
  cachedArticles
    (serve_all third_answers
       (busy_morning ++ PostUpdateCache (articles_of two_records)
        :: rejected_afternoon)%list start)
  = JArray two_records
  /\ cachedArticles (serve_all third_answers rejected_afternoon start)
     = cachedArticles start.
Proof.
  apply (last_update_decides third_answers busy_morning rejected_afternoon
           (articles_of two_records) (Some (JArray two_records)) start);
    reflexivity.
Defined.

(** The reference engine rounds a number as JSON.parse does. *)
Lemma parse_rounds_to_double :
  JSON_parse "[9007199254740993, 0.5, -7]"
  = Some (JArray [JNumber 9007199254740992; JNumber (1 # 2); JNumber (-7)]).
Proof. vm_compute. reflexivity. Qed.

Lemma cache_stays_array_run :
  is_array
    (cachedArticles
       (serve_all third_answers
          (busy_morning ++ PostUpdateCache (Some (JObject [])) :: busy_afternoon)%list
          start)) = true.
Proof.
  apply (cache_stays_array third_answers); reflexivity.
Defined.

End MoreRuns.
